(** * Hash collision simulation: bucket assignment and collision counting

    A shallow embedding of [hash_functions.py] and [collision_analysis.py].
    Python integers are [Z], Python strings are lists of code points,
    exceptions are an explicit error result, and the interpreter's
    [hash] builtin and random source are parameters of the development. *)

From Stdlib Require Import ZArith QArith Lia List String Ascii DecimalString.
From Stdlib Require Import Sorted Permutation.
From stdpp Require Import base option list gmap strings.

Local Open Scope Z_scope.

(** ** Exceptions and fallible computations *)

(** The exceptions the two modules can raise.  The first three are raised
    by the interpreter itself (by [%] and [/] on a zero divisor, by a list
    subscript out of range, by a call with an unexpected keyword);
    [ValueError] is raised by the [raise] statement of [get_inputs] and by
    [random.randint] on an empty range. *)
Inductive exn : Type :=
  | ZeroDivisionError
  | IndexError
  | TypeError
  | ValueError (msg : string).

Inductive result (A : Type) : Type :=
  | Ok (a : A)
  | Raise (e : exn).
Arguments Ok {A} a.
Arguments Raise {A} e.

Definition bind {A B : Type} (m : result A) (k : A -> result B) : result B :=
  match m with
  | Ok a => k a
  | Raise e => Raise e
  end.

Notation "'let*' x ':=' m 'in' k" := (bind m (fun x => k))
  (at level 10, x pattern, m at level 100, k at level 200).

(** An exception raised by an arithmetic operator of the interpreter, as
    opposed to one reported by a [raise] statement. *)
Definition arithmetic_fault (e : exn) : bool :=
  match e with ZeroDivisionError => true | _ => false end.

(** ** Python values and primitives *)

(** A string is the list of its code points, so that [ord] is total. *)
Definition pystr : Type := list N.

Inductive value : Type :=
  | PyInt (z : Z)
  | PyStr (s : pystr).

Definition ord (ch : N) : Z := Z.of_N ch.

Definition pystr_of_string (s : string) : pystr :=
  map N_of_ascii (list_ascii_of_string s).

(** [str(value)]: the decimal text of an integer, a string unchanged. *)
Definition str (v : value) : pystr :=
  match v with
  | PyInt z => pystr_of_string (NilZero.string_of_int (Z.to_int z))
  | PyStr s => s
  end.

(** [a % b]: floored remainder, with the sign of the divisor. *)
Definition py_mod (a b : Z) : result Z :=
  if b =? 0 then Raise ZeroDivisionError else Ok (a mod b).

(** [a / b] on integers.  The float that Python returns is the rounding of
    this exact quotient, which is what the model keeps. *)
Definition py_truediv (a b : Z) : result Q :=
  if b =? 0 then Raise ZeroDivisionError
  else Ok (Qdiv (inject_Z a) (inject_Z b)).

(** [[x] * n] *)
Definition py_repeat {A : Type} (x : A) (n : Z) : list A :=
  replicate (Z.to_nat n) x.

(** [len(l)] *)
Definition len {A : Type} (l : list A) : Z := Z.of_nat (length l).

(** Position designated by a subscript: negative subscripts count from the
    end, anything outside [-len, len) raises. *)
Definition py_index {A : Type} (l : list A) (i : Z) : result nat :=
  if (0 <=? i) && (i <? len l) then Ok (Z.to_nat i)
  else if (- len l <=? i) && (i <? 0) then Ok (Z.to_nat (i + len l))
  else Raise IndexError.

(** [l[i]] *)
Definition py_getitem (l : list Z) (i : Z) : result Z :=
  let* k := py_index l i in
  match l !! k with
  | Some x => Ok x
  | None => Raise IndexError
  end.

(** [l[i] = x] *)
Definition py_setitem (l : list Z) (i : Z) (x : Z) : result (list Z) :=
  let* k := py_index l i in Ok (<[k := x]> l).

(** [list(range(n))] *)
Definition py_range (n : Z) : list Z :=
  map Z.of_nat (seq 0 (Z.to_nat n)).

(** [sum(l)] *)
Definition py_sum (l : list Z) : Z := foldr Z.add 0 l.

(** Number of buckets holding at least one item. *)
Fixpoint occupied (l : list Z) : Z :=
  match l with
  | [] => 0
  | x :: l' => (if 0 <? x then 1 else 0) + occupied l'
  end.

(** ** hash_functions.py *)

Section HashFunctions.

(** The interpreter's [hash] builtin.  Its values are not fixed by the
    repository (string hashes change from one process to the next), so
    the development holds for any such function. *)
Variable py_hash : value -> Z.

(** The match is the test [isinstance(value, int)]. *)
Definition modulo_hash (v : value) (table_size : Z) : result Z :=
  match v with
  | PyInt z => py_mod z table_size
  | PyStr _ => py_mod (py_hash v) table_size
  end.

(** The body of [for ch in s: h = (h * base + ord(ch)) % table_size]. *)
Fixpoint polynomial_loop (table_size base : Z) (s : pystr) (h : Z)
  : result Z :=
  match s with
  | [] => Ok h
  | ch :: s' =>
      let* h' := py_mod (h * base + ord ch) table_size in
      polynomial_loop table_size base s' h'
  end.

Definition polynomial_hash (v : value) (table_size : Z) (base : Z)
  : result Z :=
  let s := str v in
  polynomial_loop table_size base s 0.

Definition default_base : Z := 31.

Definition built_in_hash (v : value) (table_size : Z) : result Z :=
  py_mod (py_hash v) table_size.

End HashFunctions.

(** ** collision_analysis.py *)

(** The dictionary returned by [run_collision_experiment]. *)
Record ExperimentResult : Type := {
  total_collisions : Z;
  collision_probability : Q;
  bucket_counts : list Z
}.

Section Experiment.

(** A hash function as the runner calls it: [hash_func(value, table_size)],
    keyword arguments already bound. *)
Variable hash_func : value -> Z -> result Z.
Variable table_size : Z.

(** One iteration of [for value in inputs], on the pair of the two
    variables the loop updates. *)
Definition experiment_step (st : list Z * Z) (v : value)
  : result (list Z * Z) :=
  let '(bucket_counts, collisions) := st in
  let* idx := hash_func v table_size in
  let* occ := py_getitem bucket_counts idx in
  let collisions := if 0 <? occ then collisions + 1 else collisions in
  let* old := py_getitem bucket_counts idx in
  let* bucket_counts := py_setitem bucket_counts idx (old + 1) in
  Ok (bucket_counts, collisions).

Fixpoint experiment_loop (inputs : list value) (st : list Z * Z)
  : result (list Z * Z) :=
  match inputs with
  | [] => Ok st
  | v :: rest =>
      let* st' := experiment_step st v in
      experiment_loop rest st'
  end.

Definition run_collision_experiment (inputs : list value)
  : result ExperimentResult :=
  let bucket_counts := py_repeat 0 table_size in
  let collisions := 0 in
  let* (bucket_counts, collisions) :=
    experiment_loop inputs (bucket_counts, collisions) in
  let* probability := py_truediv collisions (len inputs) in
  Ok {| total_collisions := collisions;
        collision_probability := probability;
        bucket_counts := bucket_counts |}.

End Experiment.

(** [generate_structured_sequence(n)] *)
Definition generate_structured_sequence (n : Z) : list value :=
  map PyInt (py_range n).

(** [string.ascii_letters + string.digits] *)
Definition characters : pystr :=
  pystr_of_string
    "abcdefghijklmnopqrstuvwxyzABCDEFGHIJKLMNOPQRSTUVWXYZ0123456789".

(** Keyword arguments [**kwargs] with integer values. *)
Abbreviation kwargs := (gmap string Z).

(** Binding [**kw] to a signature whose keyword parameters are [allowed]:
    any other keyword is a [TypeError]. *)
Definition bind_keywords (allowed : list string) (kw : kwargs)
  : result unit :=
  if forallb (fun k => bool_decide (k ∈ allowed)) (elements (dom kw))
  then Ok tt else Raise TypeError.

Definition keyword (kw : kwargs) (name : string) (default : Z) : Z :=
  match kw !! name with Some x => x | None => default end.

(** A call [f(a, b, **kw)] whose positional arguments fill the parameters
    [taken]: a keyword with the name of one of them gives that parameter a
    second value, which is a [TypeError]. *)
Definition bind_positional (taken : list string) (kw : kwargs)
  : result unit :=
  if forallb (fun name => bool_decide (kw !! name = None)) taken
  then Ok tt else Raise TypeError.

Section Generators.

(** The process-wide random source: its state, and the two functions of
    the [random] module the generators call, which may raise. *)
Variable rng : Type.
Variable randint : Z -> Z -> rng -> result (Z * rng).
Variable choices : pystr -> Z -> rng -> result (pystr * rng).

(** [[e for _ in range(n)]] for an expression [e] that draws from the
    random source. *)
Fixpoint comprehension {A : Type} (e : rng -> result (A * rng))
  (k : nat) (g : rng) : result (list A * rng) :=
  match k with
  | O => Ok ([], g)
  | S k' =>
      let* (x, g1) := e g in
      let* (xs, g2) := comprehension e k' g1 in
      Ok (x :: xs, g2)
  end.

Definition generate_random_integers (n low high : Z) (g : rng)
  : result (list value * rng) :=
  comprehension
    (fun g => let* (x, g') := randint low high g in Ok (PyInt x, g'))
    (Z.to_nat n) g.

Definition generate_random_strings (n length : Z) (g : rng)
  : result (list value * rng) :=
  comprehension
    (fun g => let* (s, g') := choices characters length g in
              Ok (PyStr s, g'))
    (Z.to_nat n) g.

(** [get_inputs(distribution, n, **kw)]: the call binds its arguments
    before the body runs. *)
Definition get_inputs (distribution : string) (n : Z) (kw : kwargs)
  (g : rng) : result (list value * rng) :=
  let* _ := bind_positional ["distribution"; "n"]%string kw in
  if String.eqb distribution "random_integers" then
    let* _ := bind_keywords ["low"; "high"]%string kw in
    generate_random_integers n (keyword kw "low" 0)
      (keyword kw "high" 1000000) g
  else if String.eqb distribution "random_strings" then
    let* _ := bind_keywords ["length"]%string kw in
    generate_random_strings n (keyword kw "length" 10) g
  else if String.eqb distribution "structured" then
    Ok (generate_structured_sequence n, g)
  else
    Raise (ValueError ("Unknown distribution type: " ++ distribution)).

Variable hash_func : value -> Z -> result Z.
Variable distribution : string.
Variable gen_kwargs : kwargs.

Abbreviation results := (gmap (Z * Z) ExperimentResult).

(** The body of [for input_size in input_sizes]. *)
Definition sweep_cell (table_size input_size : Z) (st : results * rng)
  : result (results * rng) :=
  let '(res, g) := st in
  let* (inputs, g') := get_inputs distribution input_size gen_kwargs g in
  let* r := run_collision_experiment hash_func table_size inputs in
  Ok (<[(table_size, input_size) := r]> res, g').

Fixpoint sweep_inner (table_size : Z) (input_sizes : list Z)
  (st : results * rng) : result (results * rng) :=
  match input_sizes with
  | [] => Ok st
  | input_size :: rest =>
      let* st' := sweep_cell table_size input_size st in
      sweep_inner table_size rest st'
  end.

Fixpoint sweep_outer (table_sizes input_sizes : list Z)
  (st : results * rng) : result (results * rng) :=
  match table_sizes with
  | [] => Ok st
  | table_size :: rest =>
      let* st' := sweep_inner table_size input_sizes st in
      sweep_outer rest input_sizes st'
  end.

Definition run_sweep_experiments (table_sizes input_sizes : list Z)
  (g : rng) : result (results * rng) :=
  sweep_outer table_sizes input_sizes (∅, g).

End Generators.

(** ** Reference definitions *)

(** PolynomialRolling in the words of the specification: a left-to-right
    fold over the characters from the accumulator [h = 0], with update
    [h = (h * base + code_point(ch)) mod table_size]. *)
Definition polynomial_rolling_spec (table_size base : Z) (s : pystr) : Z :=
  fold_left (fun h ch => (h * base + ord ch) mod table_size) s 0.

(** One possible [hash] builtin, to evaluate the functions on concrete
    inputs: an integer is its own hash, a string is hashed to the sum of
    its code points. *)
Definition sample_hash (v : value) : Z :=
  match v with
  | PyInt z => z
  | PyStr s => py_sum (map ord s)
  end.

(** A random source to evaluate the generators on concrete inputs: the
    state counts the draws made so far, and the [k]-th draw is the [k]-th
    element of the range, or of the population, cyclically. *)
Definition counter_randint (low high : Z) (g : nat) : result (Z * nat) :=
  if high <? low then Raise (ValueError "empty range")
  else Ok (low + Z.of_nat g mod (high - low + 1), S g).

Definition counter_choices (population : pystr) (k : Z) (g : nat)
  : result (pystr * nat) :=
  Ok (take (Z.to_nat k) (rotate g population), S g).

(** The collection returned by the sweep of the table sizes 5 and 7 and the
    input size 2 over random integers drawn from the counting source. *)
Definition sample_sweep_results : gmap (Z * Z) ExperimentResult :=
  <[(7, 2) := {| total_collisions := 0; collision_probability := 0 # 2;
                 bucket_counts := [0; 0; 1; 1; 0; 0; 0] |}]>
    (<[(5, 2) := {| total_collisions := 0; collision_probability := 0 # 2;
                    bucket_counts := [1; 1; 0; 0; 0] |}]> ∅).

Section SweepCells.

Variable rng : Type.
Variable randint : Z -> Z -> rng -> result (Z * rng).
Variable choices : pystr -> Z -> rng -> result (pystr * rng).
Variable hash_func : value -> Z -> result Z.
Variable distribution : string.
Variable gen_kwargs : kwargs.

(** One cell of a sweep as it was run: its two sizes, the state of the
    random source before and after its inputs were generated, the
    inputs, and the result of the experiment on them. *)
Record cell : Type := {
  cell_table_size : Z;
  cell_input_size : Z;
  cell_rng : rng;
  cell_inputs : list value;
  cell_rng' : rng;
  cell_result : ExperimentResult
}.

Definition cell_key (c : cell) : Z * Z :=
  (cell_table_size c, cell_input_size c).

(** [cells_chain st cells st']: run one after the other from the result
    collection and random source [st], the cells lead to [st'].  Each
    cell generates its own inputs from the random source as the cell
    before left it, runs the experiment on them and stores the result
    under its key. *)
Fixpoint cells_chain (st : gmap (Z * Z) ExperimentResult * rng)
  (cells : list cell) (st' : gmap (Z * Z) ExperimentResult * rng) : Prop :=
  match cells with
  | [] => st = st'
  | c :: rest =>
      cell_rng c = st.2 /\
      get_inputs rng randint choices distribution (cell_input_size c)
        gen_kwargs (cell_rng c) = Ok (cell_inputs c, cell_rng' c) /\
      run_collision_experiment hash_func (cell_table_size c)
        (cell_inputs c) = Ok (cell_result c) /\
      cells_chain (<[cell_key c := cell_result c]> st.1, cell_rng' c)
        rest st'
  end.

End SweepCells.

Arguments cell_table_size {rng} c.
Arguments cell_input_size {rng} c.
Arguments cell_rng {rng} c.
Arguments cell_inputs {rng} c.
Arguments cell_rng' {rng} c.
Arguments cell_result {rng} c.
Arguments cell_key {rng} c.

(** ** Buckets of inputs *)

(** The bucket in which the runner counts an input: the position that the
    subscript [bucket_counts[hash_func(value, table_size)]] designates in a
    table of [table_size] buckets; none when the hash function raises or the
    subscript is out of range. *)
Definition bucket_of (hash_func : value -> Z -> result Z) (table_size : Z)
  (v : value) : option nat :=
  match hash_func v table_size with
  | Ok idx =>
      match py_index (py_repeat 0 table_size) idx with
      | Ok k => Some k
      | Raise _ => None
      end
  | Raise _ => None
  end.

(** Number of inputs counted in bucket [k]. *)
Definition landing_in (hash_func : value -> Z -> result Z) (table_size : Z)
  (k : nat) (inputs : list value) : Z :=
  len (filter (fun v => bucket_of hash_func table_size v = Some k) inputs).

(** A hash function with its negative indices counted from the end of the
    table, as a list subscript does. *)
Definition from_the_end (hash_func : value -> Z -> result Z)
  (v : value) (table_size : Z) : result Z :=
  let* idx := hash_func v table_size in
  if (- table_size <=? idx) && (idx <? 0) then Ok (idx + table_size)
  else Ok idx.

(** The value at [base] of the polynomial whose coefficients are the code
    points of [s], the first character having the highest degree. *)
Fixpoint polynomial_value (base : Z) (s : pystr) : Z :=
  match s with
  | [] => 0
  | ch :: s' => ord ch * base ^ len s' + polynomial_value base s'
  end.

(** ** visualization.py and main.py *)

(** The dictionary of sweep results as Python iterates it: its items in
    insertion order, each key once. *)
Abbreviation sweep_dict := (list ((Z * Z) * ExperimentResult)).

(** [sorted(rows, key=lambda x: x[0])]: ascending in the first component,
    and stable, so rows with equal keys keep their order. *)
Fixpoint insert_row {B : Type} (x : Z * B) (rows : list (Z * B))
  : list (Z * B) :=
  match rows with
  | [] => [x]
  | y :: rows' =>
      if y.1 <? x.1 then y :: insert_row x rows' else x :: y :: rows'
  end.

Definition sorted_rows {B : Type} (rows : list (Z * B)) : list (Z * B) :=
  foldr insert_row [] rows.

(** Unpacking the transposed [sorted_data] into its sequences when
    [sorted_data] is empty. *)
Definition unpack_error (expected : string) : exn :=
  ValueError ("not enough values to unpack (expected " ++ expected
              ++ ", got 0)").

(** The rows that the loop of [plot_collisions_vs_table_size] collects.  It
    appends to three lists in step, which is one list of rows; a key met in
    the iteration is looked up to its own value. *)
Definition collisions_rows (sweep_results : sweep_dict) (input_size : Z)
  : list (Z * (Z * Q)) :=
  flat_map (fun item : (Z * Z) * ExperimentResult =>
              let '((table_size, n), r) := item in
              if n =? input_size
              then [(table_size,
                     (total_collisions r, collision_probability r))]
              else [])
    sweep_results.

(** [plot_collisions_vs_table_size], by the three sequences that it hands
    to [plt.plot]: table sizes, total collisions and collision
    probabilities.  The drawing itself is not modelled. *)
Definition plot_collisions_vs_table_size (sweep_results : sweep_dict)
  (input_size : Z) : result (list Z * list Z * list Q) :=
  let sorted_data := sorted_rows (collisions_rows sweep_results input_size) in
  match sorted_data with
  | [] => Raise (unpack_error "3")
  | _ :: _ =>
      Ok (map (fun x => x.1) sorted_data,
          map (fun x => x.2.1) sorted_data,
          map (fun x => x.2.2) sorted_data)
  end.

(** The rows that the loop of [plot_collision_probability_vs_input_size]
    collects. *)
Definition probability_rows (sweep_results : sweep_dict) (table_size : Z)
  : list (Z * Q) :=
  flat_map (fun item : (Z * Z) * ExperimentResult =>
              let '((ts, n), r) := item in
              if ts =? table_size
              then [(n, collision_probability r)]
              else [])
    sweep_results.

(** [plot_collision_probability_vs_input_size], by the two sequences that
    it hands to [plt.plot]: input sizes and collision probabilities. *)
Definition plot_collision_probability_vs_input_size
  (sweep_results : sweep_dict) (table_size : Z)
  : result (list Z * list Q) :=
  let sorted_data :=
    sorted_rows (probability_rows sweep_results table_size) in
  match sorted_data with
  | [] => Raise (unpack_error "2")
  | _ :: _ =>
      Ok (map (fun x => x.1) sorted_data, map (fun x => x.2) sorted_data)
  end.

(** The keywords that [main] passes to the sweep for the input
    generator. *)
Definition main_gen_kwargs (distribution : string) (string_length : Z)
  : kwargs :=
  if String.eqb distribution "random_strings"
  then <["length" := string_length]> ∅
  else ∅.

(** The ordered dictionary [d] holds the collection [res]: the same keys
    with the same results, in whatever order they were inserted. *)
Definition lists_results (d : sweep_dict)
  (res : gmap (Z * Z) ExperimentResult) : Prop :=
  NoDup (map fst d) /\ forall k r, In (k, r) d <-> res !! k = Some r.

(** ** Sample data *)

Definition sample_inputs : list value := [PyInt 9; PyInt 6; PyInt 1].

(** The result of the modulo hash on [sample_inputs] in a table of 4. *)
Definition sample_result : ExperimentResult :=
  {| total_collisions := 1; collision_probability := 1 # 3;
     bucket_counts := [0; 2; 1; 0] |}.

(** A hash function that breaks the contract: an integer is its own
    index. *)
Definition identity_hash (v : value) (table_size : Z) : result Z :=
  match v with
  | PyInt z => Ok z
  | PyStr _ => Ok 0
  end.

(** A [random.choices] to evaluate the string generator: the [i]-th
    character of the [g]-th draw is the character [g + i] of the
    population, cyclically; an empty population has nothing to choose
    from. *)
Definition cycle_choices (population : pystr) (k : Z) (g : nat)
  : result (pystr * nat) :=
  match population with
  | [] => if 0 <? k then Raise IndexError else Ok ([], S g)
  | ch :: _ =>
      Ok (map (fun i => nth ((g + i) mod length population) population ch)
            (seq 0 (Z.to_nat k)), S g)
  end.

(** A dictionary of results, in an order that is not that of its keys. *)
Definition sample_dict : sweep_dict :=
  [((7, 2), {| total_collisions := 0; collision_probability := 0 # 2;
               bucket_counts := [0; 0; 1; 1; 0; 0; 0] |});
   ((5, 2), {| total_collisions := 1; collision_probability := 1 # 2;
               bucket_counts := [2; 0; 0; 0; 0] |});
   ((5, 4), {| total_collisions := 3; collision_probability := 3 # 4;
               bucket_counts := [4; 0; 0; 0; 0] |})].

(** The collection [sample_sweep_results] as a dictionary. *)
Definition sample_sweep_dict : sweep_dict :=
  [((5, 2), {| total_collisions := 0; collision_probability := 0 # 2;
               bucket_counts := [1; 1; 0; 0; 0] |});
   ((7, 2), {| total_collisions := 0; collision_probability := 0 # 2;
               bucket_counts := [0; 0; 1; 1; 0; 0; 0] |})].

(** The collection returned when the table size 5 is swept twice. *)
Definition sample_repeated_results : gmap (Z * Z) ExperimentResult :=
  <[(5, 2) := {| total_collisions := 0; collision_probability := 0 # 2;
                 bucket_counts := [0; 0; 1; 1; 0] |}]>
    (<[(5, 2) := {| total_collisions := 0; collision_probability := 0 # 2;
                    bucket_counts := [1; 1; 0; 0; 0] |}]> ∅).

(** When [get_inputs] generates: the distribution is one of the three
    names, every keyword is one of its generator, and the library function
    that the generator calls returns on the arguments it is given. *)
Definition can_generate (rng : Type)
  (randint : Z -> Z -> rng -> result (Z * rng))
  (choices : pystr -> Z -> rng -> result (pystr * rng))
  (distribution : string) (kw : kwargs) : Prop :=
  (distribution = "random_integers" /\
   (forall name, is_Some (kw !! name) -> name = "low" \/ name = "high") /\
   (forall g, exists x g',
      randint (keyword kw "low" 0) (keyword kw "high" 1000000) g
      = Ok (x, g')))
  \/
  (distribution = "random_strings" /\
   (forall name, is_Some (kw !! name) -> name = "length") /\
   (forall g, exists s g',
      choices characters (keyword kw "length" 10) g = Ok (s, g')))
  \/
  (distribution = "structured" /\
   kw !! "distribution" = None /\ kw !! "n" = None).

(** ** Python primitives: basic facts *)

Lemma bind_ok {A B : Type} (m : result A) (k : A -> result B) (b : B) :
  bind m k = Ok b -> exists a, m = Ok a /\ k a = Ok b.
Proof. destruct m as [a|e]; simpl; [eauto | discriminate]. Qed.

Lemma py_mod_nonzero (a b : Z) : b <> 0 -> py_mod a b = Ok (a mod b).
Proof. intros Hb. unfold py_mod. destruct (Z.eqb_spec b 0); [lia | reflexivity]. Qed.

Lemma length_py_repeat {A : Type} (x : A) (n : Z) :
  length (py_repeat x n) = Z.to_nat n.
Proof. apply length_replicate. Qed.

Lemma py_index_nonneg {A : Type} (l : list A) (i : Z) :
  0 <= i < len l -> py_index l i = Ok (Z.to_nat i).
Proof.
  intros [H0 H1]. unfold py_index.
  destruct (Z.leb_spec 0 i); [| lia].
  destruct (Z.ltb_spec i (len l)); [reflexivity | lia].
Qed.

Lemma py_getitem_ok (l : list Z) (i x : Z) :
  py_getitem l i = Ok x <->
  exists k, py_index l i = Ok k /\ l !! k = Some x.
Proof.
  unfold py_getitem. split.
  - intros H. apply bind_ok in H as (k & Hk & H). exists k. split; [done |].
    destruct (l !! k); [by inversion H | discriminate].
  - intros (k & -> & H). simpl. by rewrite H.
Qed.

Lemma py_sum_insert (l : list Z) (k : nat) (x y : Z) :
  l !! k = Some x -> py_sum (<[k := y]> l) = py_sum l - x + y.
Proof.
  revert k. induction l as [| a l IH]; intros [| k] H; simpl in *;
    try discriminate.
  - inversion H; subst. lia.
  - rewrite (IH k H). lia.
Qed.

Lemma py_sum_replicate_0 (n : nat) : py_sum (replicate n 0) = 0.
Proof. induction n as [| n IH]; simpl; [reflexivity | exact IH]. Qed.

Lemma occupied_insert (l : list Z) (k : nat) (x y : Z) :
  l !! k = Some x ->
  occupied (<[k := y]> l)
  = occupied l - (if 0 <? x then 1 else 0) + (if 0 <? y then 1 else 0).
Proof.
  revert k. induction l as [| a l IH]; intros [| k] H; simpl in *;
    try discriminate.
  - inversion H; subst. lia.
  - rewrite (IH k H). lia.
Qed.

Lemma occupied_replicate_0 (n : nat) : occupied (replicate n 0) = 0.
Proof. induction n as [| n IH]; simpl; [reflexivity | exact IH]. Qed.

Lemma occupied_bounds (l : list Z) : 0 <= occupied l <= len l.
Proof.
  unfold len. induction l as [| a l IH]; simpl length; simpl occupied;
    [lia |]. destruct (0 <? a); lia.
Qed.

Lemma py_sum_unoccupied (l : list Z) : occupied l = 0 -> py_sum l <= 0.
Proof.
  induction l as [| a l IH]; simpl; [lia |].
  pose proof (occupied_bounds l).
  destruct (Z.ltb_spec 0 a) as [Ha | Ha]; intros Hocc; [lia |].
  assert (py_sum l <= 0) by (apply IH; lia). unfold py_sum in *. lia.
Qed.

(** ** The experiment loop *)

Section ExperimentFacts.

Variable hash_func : value -> Z -> result Z.
Variable table_size : Z.

Local Abbreviation step := (experiment_step hash_func table_size).
Local Abbreviation loop := (experiment_loop hash_func table_size).

(** What one iteration does, whenever it does not raise. *)
Lemma experiment_step_inv (bc : list Z) (c : Z) (v : value)
  (bc' : list Z) (c' : Z) :
  step (bc, c) v = Ok (bc', c') <->
  exists idx k occ,
    hash_func v table_size = Ok idx /\ py_index bc idx = Ok k /\
    bc !! k = Some occ /\ bc' = <[k := occ + 1]> bc /\
    c' = (if 0 <? occ then c + 1 else c).
Proof.
  unfold experiment_step. split.
  - intros H.
    apply bind_ok in H as (idx & Hidx & H).
    apply bind_ok in H as (occ & Hocc & H).
    rewrite Hocc in H. simpl in H.
    apply py_getitem_ok in Hocc as (k & Hk & Hl).
    unfold py_setitem in H. rewrite Hk in H. simpl in H.
    inversion H; subst. by exists idx, k, occ.
  - intros (idx & k & occ & -> & Hk & Hl & -> & ->). simpl.
    assert (Hg : py_getitem bc idx = Ok occ)
      by (apply py_getitem_ok; eauto).
    rewrite Hg. simpl. unfold py_setitem. by rewrite Hk.
Qed.

Lemma experiment_loop_app (l1 l2 : list value) (st : list Z * Z) :
  loop (l1 ++ l2) st = bind (loop l1 st) (loop l2).
Proof.
  revert st. induction l1 as [| v l1 IH]; intros st; simpl; [done |].
  destruct (step st v) as [st' |]; simpl; [apply IH | done].
Qed.

(** The loop invariant: the table keeps its length, every processed
    input adds one to the sum of the buckets, and an input is counted as
    a collision exactly when it does not occupy a new bucket. *)
Lemma experiment_loop_invariant (inputs : list value) (bc : list Z)
  (c : Z) (bc' : list Z) (c' : Z) :
  loop inputs (bc, c) = Ok (bc', c') ->
  Forall (fun x => 0 <= x) bc ->
  length bc' = length bc /\
  Forall (fun x => 0 <= x) bc' /\
  py_sum bc' = py_sum bc + len inputs /\
  c <= c' /\
  c' + occupied bc' = c + occupied bc + len inputs.
Proof.
  unfold len. revert bc c.
  induction inputs as [| v inputs IH]; intros bc c H Hpos; simpl in H.
  - inversion H; subst. simpl. repeat split; try done; lia.
  - apply bind_ok in H as ([bc1 c1] & Hstep & H).
    apply experiment_step_inv in Hstep
      as (idx & k & occ & _ & Hk & Hl & -> & ->).
    assert (Hocc : 0 <= occ)
      by (eapply (proj1 (Forall_lookup _ _) Hpos); eauto).
    apply IH in H as (Hlen & Hpos' & Hsum & Hmono & Hcol).
    + rewrite length_insert in Hlen.
      rewrite (py_sum_insert _ _ _ _ Hl) in Hsum.
      rewrite (occupied_insert _ _ _ _ Hl) in Hcol.
      simpl length.
      destruct (Z.ltb_spec 0 occ), (Z.ltb_spec 0 (occ + 1));
        repeat split; try done; lia.
    + apply Forall_insert; [done | lia].
Qed.

(** A hash function that keeps its contract never makes the loop
    raise. *)
Lemma experiment_loop_total (inputs : list value) (bc : list Z) (c : Z) :
  len bc = table_size ->
  (forall v, In v inputs ->
     exists idx, hash_func v table_size = Ok idx /\ 0 <= idx < table_size) ->
  exists st, loop inputs (bc, c) = Ok st.
Proof.
  revert bc c. induction inputs as [| v inputs IH]; intros bc c Hlen Hh.
  - simpl. eauto.
  - destruct (Hh v) as (idx & Hidx & Hrange); [by left |].
    assert (Hk : py_index bc idx = Ok (Z.to_nat idx))
      by (apply py_index_nonneg; lia).
    destruct (lookup_lt_is_Some_2 bc (Z.to_nat idx)) as [occ Hocc].
    { unfold len in Hlen. lia. }
    assert (Hstep : step (bc, c) v
                    = Ok (<[Z.to_nat idx := occ + 1]> bc,
                          if 0 <? occ then c + 1 else c)).
    { apply experiment_step_inv. by exists idx, (Z.to_nat idx), occ. }
    cbn [experiment_loop]. rewrite Hstep. cbn [bind]. apply IH.
    + unfold len in *. by rewrite length_insert.
    + intros x Hx. apply Hh. by right.
Qed.

Lemma run_collision_experiment_inv (inputs : list value)
  (r : ExperimentResult) :
  run_collision_experiment hash_func table_size inputs = Ok r <->
  inputs <> [] /\
  loop inputs (py_repeat 0 table_size, 0)
  = Ok (bucket_counts r, total_collisions r) /\
  collision_probability r
  = Qdiv (inject_Z (total_collisions r)) (inject_Z (len inputs)).
Proof.
  unfold run_collision_experiment, py_truediv. split.
  - intros H. apply bind_ok in H as ([bc c] & Hloop & H).
    destruct (Z.eqb_spec (len inputs) 0) as [Hz | Hz]; simpl in H;
      [discriminate |].
    inversion H; subst; simpl. repeat split; try done.
    intros ->. by apply Hz.
  - intros (Hne & Hloop & Hp). rewrite Hloop. simpl.
    destruct (Z.eqb_spec (len inputs) 0) as [Hz | Hz]; simpl.
    + destruct inputs; [done | unfold len in Hz; simpl in Hz; lia].
    + destruct r as [c p bc]; simpl in *. by rewrite Hp.
Qed.

End ExperimentFacts.

Lemma Forall_nonneg_py_repeat (n : Z) : Forall (fun x => 0 <= x) (py_repeat 0 n).
Proof. apply Forall_replicate. lia. Qed.

Lemma quotient_unit_interval (c n : Z) :
  0 <= c < n -> (0 <= Qdiv (inject_Z c) (inject_Z n) < 1)%Q.
Proof.
  intros [Hc Hn]. destruct n as [| p | p]; try lia.
  rewrite <- (Qmake_Qdiv c p). unfold Qle, Qlt. simpl. lia.
Qed.

(** ** The experiment runner *)

(** C1. The runner counts collisions by the occupied-before-insertion rule.
    If [(bc, c)] are the bucket counts and the collision count after the
    inputs processed so far, then the run on one more input [v], hashed to
    [idx], finds the occupancy [occ] of bucket [idx], adds one to it in any
    case, and counts one more collision exactly when [occ > 0].  On the
    inputs [5, 5, 5] with ten buckets and the modulo hash, bucket 5 ends
    with 3 items and 2 collisions are counted. *)
Theorem collision_counting_rule (hash_func : value -> Z -> result Z)
  (table_size : Z) (inputs : list value) (v : value)
  (bc : list Z) (c idx : Z) :
  0 < table_size ->
  experiment_loop hash_func table_size inputs (py_repeat 0 table_size, 0)
  = Ok (bc, c) ->
  hash_func v table_size = Ok idx ->
  0 <= idx < table_size ->
  (exists occ r,
     py_getitem bc idx = Ok occ /\
     run_collision_experiment hash_func table_size (inputs ++ [v]) = Ok r /\
     bucket_counts r = <[Z.to_nat idx := occ + 1]> bc /\
     total_collisions r = (if 0 <? occ then c + 1 else c))
  /\
  (forall py_hash, exists r,
     run_collision_experiment (modulo_hash py_hash) 10
       [PyInt 5; PyInt 5; PyInt 5] = Ok r /\
     py_getitem (bucket_counts r) 5 = Ok 3 /\
     total_collisions r = 2).
Proof.
  intros Ht Hloop Hidx Hrange. split.
  - destruct (experiment_loop_invariant _ _ _ _ _ _ _ Hloop)
      as (Hlen & _); [apply Forall_nonneg_py_repeat |].
    rewrite length_py_repeat in Hlen.
    assert (Hk : py_index bc idx = Ok (Z.to_nat idx))
      by (apply py_index_nonneg; unfold len; lia).
    destruct (lookup_lt_is_Some_2 bc (Z.to_nat idx)) as [occ Hocc]; [lia |].
    exists occ.
    eexists {| total_collisions := if 0 <? occ then c + 1 else c;
               bucket_counts := <[Z.to_nat idx := occ + 1]> bc |}.
    split; [apply py_getitem_ok; eauto |].
    split; [| done].
    apply run_collision_experiment_inv. simpl.
    split; [by destruct inputs |]. split; [| reflexivity].
    rewrite experiment_loop_app, Hloop. cbn [bind experiment_loop].
    assert (Hstep : experiment_step hash_func table_size (bc, c) v
                    = Ok (<[Z.to_nat idx := occ + 1]> bc,
                          if 0 <? occ then c + 1 else c)).
    { apply experiment_step_inv. by exists idx, (Z.to_nat idx), occ. }
    by rewrite Hstep.
  - intros py_hash. eexists. split; [reflexivity |]. by split.
Qed.

(** C2. With a positive table size and a hash function that returns
    indices in [[0, table_size)], the runner returns a result for every
    non-empty input sequence, and the result it returns has
    [sum(bucket_counts) == len(inputs)] and
    [len(bucket_counts) == table_size]. *)
Theorem experiment_result_invariant (hash_func : value -> Z -> result Z)
  (table_size : Z) (inputs : list value) :
  0 < table_size ->
  (forall v, In v inputs ->
     exists idx, hash_func v table_size = Ok idx /\ 0 <= idx < table_size) ->
  (inputs <> [] ->
   exists r, run_collision_experiment hash_func table_size inputs = Ok r) /\
  (forall r, run_collision_experiment hash_func table_size inputs = Ok r ->
     py_sum (bucket_counts r) = len inputs /\
     len (bucket_counts r) = table_size).
Proof.
  intros Ht Hh. split.
  - intros Hne.
    destruct (experiment_loop_total hash_func table_size inputs
                (py_repeat 0 table_size) 0) as [[bc c] Hloop]; [| done |].
    { unfold len. rewrite length_py_repeat. lia. }
    eexists {| total_collisions := c; bucket_counts := bc |}.
    apply run_collision_experiment_inv. simpl. by repeat split.
  - intros r Hr. apply run_collision_experiment_inv in Hr as (_ & Hloop & _).
    apply experiment_loop_invariant in Hloop
      as (Hlen & _ & Hsum & _ & _); [| apply Forall_nonneg_py_repeat].
    rewrite length_py_repeat in Hlen. split.
    + rewrite Hsum. unfold py_repeat. rewrite py_sum_replicate_0. lia.
    + unfold len. lia.
Qed.

(** C10. With a positive table size and a hash function that returns
    indices in [[0, table_size)], every non-empty input sequence gets a
    result, and a returned result has [total_collisions] equal to
    [len(inputs)] minus the number of buckets holding at least one item;
    so [total_collisions <= len(inputs) - 1] and the collision probability
    is at least 0 and strictly below 1. *)
Theorem collisions_complement_occupied (hash_func : value -> Z -> result Z)
  (table_size : Z) (inputs : list value) :
  0 < table_size ->
  (forall v, In v inputs ->
     exists idx, hash_func v table_size = Ok idx /\ 0 <= idx < table_size) ->
  (inputs <> [] ->
   exists r, run_collision_experiment hash_func table_size inputs = Ok r) /\
  (forall r, run_collision_experiment hash_func table_size inputs = Ok r ->
     total_collisions r = len inputs - occupied (bucket_counts r) /\
     0 <= total_collisions r <= len inputs - 1 /\
     (0 <= collision_probability r < 1)%Q).
Proof.
  intros Ht Hh. split.
  - intros Hne.
    destruct (experiment_loop_total hash_func table_size inputs
                (py_repeat 0 table_size) 0) as [[bc c] Hloop]; [| done |].
    { unfold len. rewrite length_py_repeat. lia. }
    eexists {| total_collisions := c; bucket_counts := bc |}.
    apply run_collision_experiment_inv. simpl. by repeat split.
  - intros r Hr.
    apply run_collision_experiment_inv in Hr as (Hne & Hloop & Hp).
    apply experiment_loop_invariant in Hloop
      as (_ & _ & Hsum & Hmono & Hcol); [| apply Forall_nonneg_py_repeat].
    unfold py_repeat in Hsum, Hcol.
    rewrite py_sum_replicate_0 in Hsum. rewrite occupied_replicate_0 in Hcol.
    pose proof (occupied_bounds (bucket_counts r)) as Hb.
    assert (Hpos : 0 < len inputs)
      by (destruct inputs; [done | unfold len; simpl; lia]).
    assert (Hocc : 0 < occupied (bucket_counts r)).
    { destruct (Z.eq_dec (occupied (bucket_counts r)) 0) as [Hz |]; [| lia].
      apply py_sum_unoccupied in Hz. lia. }
    repeat split; try lia;
      rewrite Hp; apply quotient_unit_interval; lia.
Qed.

(** ** The hash functions *)

Lemma polynomial_loop_spec (table_size base : Z) (s : pystr) (h : Z) :
  table_size <> 0 ->
  polynomial_loop table_size base s h
  = Ok (fold_left (fun h ch => (h * base + ord ch) mod table_size) s h).
Proof.
  intros Ht. revert h. induction s as [| ch s IH]; intros h; simpl; [done |].
  rewrite py_mod_nonzero by done. simpl. apply IH.
Qed.

Lemma polynomial_fold_range (table_size base : Z) (s : pystr) (h : Z)
  (P : Z -> Prop) :
  P h -> (forall x, P (x mod table_size)) ->
  P (fold_left (fun h ch => (h * base + ord ch) mod table_size) s h).
Proof.
  intros Hh Hmod. revert h Hh.
  induction s as [| ch s IH]; intros h Hh; simpl; [done |]. apply IH, Hmod.
Qed.

(** C3. For a positive table size, each of the three hash functions
    returns, for every integer or string value (and every base), a bucket
    index [i] with [0 <= i < table_size]. *)
Theorem hash_index_in_range (py_hash : value -> Z) (v : value)
  (table_size base : Z) :
  0 < table_size ->
  (exists i, modulo_hash py_hash v table_size = Ok i /\ 0 <= i < table_size) /\
  (exists i, polynomial_hash v table_size base = Ok i /\
             0 <= i < table_size) /\
  (exists i, built_in_hash py_hash v table_size = Ok i /\
             0 <= i < table_size).
Proof.
  intros Ht. repeat split.
  - destruct v as [z | s]; simpl; rewrite py_mod_nonzero by lia;
      eexists; (split; [reflexivity | apply Z.mod_pos_bound; lia]).
  - unfold polynomial_hash. rewrite polynomial_loop_spec by lia.
    eexists. split; [reflexivity |].
    apply polynomial_fold_range; [lia |].
    intros x. apply Z.mod_pos_bound. lia.
  - unfold built_in_hash. rewrite py_mod_nonzero by lia.
    eexists. split; [reflexivity | apply Z.mod_pos_bound; lia].
Qed.

(** C7. For a positive table size and any base, [polynomial_hash] returns
    the left-to-right fold over the characters of [str(value)] that starts
    from [h = 0] and reduces [h * base + ord(ch)] modulo the table size at
    every step; the empty string is hashed to bucket 0. *)
Theorem polynomial_hash_is_rolling_fold (v : value) (table_size base : Z) :
  0 < table_size ->
  polynomial_hash v table_size base
  = Ok (polynomial_rolling_spec table_size base (str v)) /\
  polynomial_hash (PyStr []) table_size base = Ok 0.
Proof.
  intros Ht. split; [| reflexivity].
  unfold polynomial_hash, polynomial_rolling_spec.
  apply polynomial_loop_spec. lia.
Qed.

(** C8. For every integer [v], negative ones included, and every positive
    table size [t], [modulo_hash] returns [((v % t) + t) % t], whether [%]
    is read as the floored or as the truncated remainder: the integer [r]
    with [0 <= r < t] that is congruent to [v] modulo [t]. *)
Theorem modulo_hash_nonnegative_remainder (py_hash : value -> Z)
  (v table_size : Z) :
  0 < table_size ->
  exists r,
    modulo_hash py_hash (PyInt v) table_size = Ok r /\
    r = ((v mod table_size) + table_size) mod table_size /\
    r = ((Z.rem v table_size) + table_size) mod table_size /\
    0 <= r < table_size /\
    (table_size | r - v).
Proof.
  intros Ht. exists (v mod table_size). simpl.
  rewrite py_mod_nonzero by lia. repeat split.
  - rewrite <- (Z.mul_1_l table_size) at 3.
    rewrite Z.mod_add, Z.mod_mod by lia. reflexivity.
  - pose proof (Z.quot_rem' v table_size) as Hq.
    replace (Z.rem v table_size + table_size)
      with (v + (1 - v ÷ table_size) * table_size) by lia.
    rewrite Z.mod_add by lia. reflexivity.
  - apply Z.mod_pos_bound. lia.
  - apply Z.mod_pos_bound. lia.
  - exists (- (v / table_size)).
    pose proof (Z.div_mod v table_size). lia.
Qed.

(** C5, as the code has it.  No hash function checks its table size.  With
    [table_size = 0], [modulo_hash] and [built_in_hash] raise
    [ZeroDivisionError] for every value, and [polynomial_hash] raises it for
    every value whose text is not empty and returns 0 for the empty string.
    With [table_size < 0] none of them fails: each returns an index [i]
    with [table_size < i <= 0]. *)
Theorem hash_table_size_unchecked (py_hash : value -> Z) (v : value)
  (table_size base : Z) :
  table_size <= 0 ->
  (table_size = 0 ->
     modulo_hash py_hash v table_size = Raise ZeroDivisionError /\
     built_in_hash py_hash v table_size = Raise ZeroDivisionError /\
     polynomial_hash v table_size base
     = match str v with [] => Ok 0 | _ :: _ => Raise ZeroDivisionError end) /\
  (table_size < 0 ->
     (exists i, modulo_hash py_hash v table_size = Ok i /\
                table_size < i <= 0) /\
     (exists i, built_in_hash py_hash v table_size = Ok i /\
                table_size < i <= 0) /\
     (exists i, polynomial_hash v table_size base = Ok i /\
                table_size < i <= 0)).
Proof.
  intros _. split.
  - intros ->. repeat split.
    + by destruct v.
    + unfold polynomial_hash. by destruct (str v).
  - intros Ht. repeat split.
    + destruct v as [z | s]; simpl; rewrite py_mod_nonzero by lia;
        eexists; (split; [reflexivity | apply Z.mod_neg_bound; lia]).
    + unfold built_in_hash. rewrite py_mod_nonzero by lia.
      eexists. split; [reflexivity | apply Z.mod_neg_bound; lia].
    + unfold polynomial_hash. rewrite polynomial_loop_spec by lia.
      eexists. split; [reflexivity |].
      apply polynomial_fold_range; [lia |].
      intros x. apply Z.mod_neg_bound. lia.
Qed.

(** ** Empty input *)

(** C4, as the code has it.  On an empty input sequence the runner raises
    the interpreter's [ZeroDivisionError], from the division
    [collisions / len(inputs)], whatever the hash function and the table
    size; it returns no result, so no collision probability of 0. *)
Theorem empty_input_zero_division (hash_func : value -> Z -> result Z)
  (table_size : Z) :
  run_collision_experiment hash_func table_size [] = Raise ZeroDivisionError /\
  (forall r, run_collision_experiment hash_func table_size [] <> Ok r).
Proof. split; [reflexivity | intros r; discriminate]. Qed.

(** ** The structured sequence under the modulo hash *)

Lemma py_range_succ (n : nat) :
  py_range (Z.of_nat (S n)) = py_range (Z.of_nat n) ++ [Z.of_nat n].
Proof.
  unfold py_range. rewrite !Nat2Z.id, seq_S, map_app. reflexivity.
Qed.

Lemma length_py_range (n : Z) : len (py_range n) = Z.max 0 n.
Proof. unfold len, py_range. rewrite length_map, length_seq. lia. Qed.

Lemma insert_next_free_bucket (k m : nat) :
  <[k := 0 + 1]> (replicate k 1 ++ replicate (S m) 0)
  = replicate (S k) 1 ++ replicate m 0.
Proof.
  rewrite insert_app_r_alt by (rewrite length_replicate; lia).
  rewrite length_replicate, Nat.sub_diag. cbn [replicate list_insert insert].
  change (0 + 1) with 1.
  rewrite (cons_middle 1), app_assoc, <- replicate_cons_app. reflexivity.
Qed.

(** After the first [k] integers, the first [k] buckets hold one item each
    and no collision has been counted. *)
Lemma structured_loop (py_hash : value -> Z) (table_size : Z) (k : nat) :
  Z.of_nat k <= table_size ->
  experiment_loop (modulo_hash py_hash) table_size
    (generate_structured_sequence (Z.of_nat k)) (py_repeat 0 table_size, 0)
  = Ok (replicate k 1 ++ replicate (Z.to_nat table_size - k) 0, 0).
Proof.
  unfold generate_structured_sequence.
  induction k as [| k IH]; intros Hk.
  - simpl. rewrite Nat.sub_0_r. reflexivity.
  - rewrite py_range_succ, map_app, experiment_loop_app, IH by lia.
    cbn [bind map experiment_loop].
    assert (Hm : (Z.to_nat table_size - k = S (Z.to_nat table_size - S k))%nat)
      by lia.
    rewrite Hm.
    assert (Hstep : experiment_step (modulo_hash py_hash) table_size
              (replicate k 1 ++ replicate (S (Z.to_nat table_size - S k)) 0, 0)
              (PyInt (Z.of_nat k))
            = Ok (<[k := 0 + 1]>
                    (replicate k 1
                     ++ replicate (S (Z.to_nat table_size - S k)) 0), 0)).
    { apply experiment_step_inv. exists (Z.of_nat k), k, 0.
      repeat split.
      - simpl. rewrite py_mod_nonzero by lia.
        rewrite Z.mod_small by lia. reflexivity.
      - rewrite py_index_nonneg.
        + by rewrite Nat2Z.id.
        + unfold len. rewrite length_app, !length_replicate. lia.
      - rewrite lookup_app_r by (rewrite length_replicate; lia).
        rewrite length_replicate, Nat.sub_diag. reflexivity. }
    rewrite Hstep, insert_next_free_bucket. reflexivity.
Qed.

(** C6, as the code has it.  For every [n >= 1] and every table size
    [t >= n], the runner on the structured sequence [0, 1, ..., n-1] with
    the modulo hash returns a result with [total_collisions == 0]: the
    first [n] buckets hold one item each, the others none. *)
Theorem structured_modulo_no_collision (py_hash : value -> Z)
  (n table_size : Z) :
  1 <= n -> n <= table_size ->
  exists r,
    run_collision_experiment (modulo_hash py_hash) table_size
      (generate_structured_sequence n) = Ok r /\
    total_collisions r = 0 /\
    bucket_counts r
    = replicate (Z.to_nat n) 1 ++ replicate (Z.to_nat (table_size - n)) 0.
Proof.
  intros Hn Ht.
  eexists {| total_collisions := 0;
             bucket_counts := replicate (Z.to_nat n) 1
                              ++ replicate (Z.to_nat (table_size - n)) 0 |}.
  split; [| done].
  apply run_collision_experiment_inv. simpl. repeat split.
  - intros Hnil. apply (f_equal len) in Hnil.
    unfold generate_structured_sequence, len in Hnil.
    rewrite length_map in Hnil. fold (len (py_range n)) in Hnil.
    rewrite length_py_range in Hnil. simpl in Hnil. lia.
  - rewrite <- (Z2Nat.id n) at 1 by lia.
    rewrite structured_loop by lia.
    replace (Z.to_nat table_size - Z.to_nat n)%nat
      with (Z.to_nat (table_size - n)) by lia.
    reflexivity.
Qed.

(** ** The sweep *)

Section SweepFacts.

Variable rng : Type.
Variable randint : Z -> Z -> rng -> result (Z * rng).
Variable choices : pystr -> Z -> rng -> result (pystr * rng).
Variable hash_func : value -> Z -> result Z.
Variable distribution : string.
Variable gen_kwargs : kwargs.

Local Abbreviation results := (gmap (Z * Z) ExperimentResult).
Local Abbreviation chain :=
  (cells_chain rng randint choices hash_func distribution gen_kwargs).
Local Abbreviation inputs_of :=
  (get_inputs rng randint choices distribution).

Lemma comprehension_length {A : Type} (e : rng -> result (A * rng))
  (k : nat) (g : rng) (xs : list A) (g' : rng) :
  comprehension rng e k g = Ok (xs, g') -> length xs = k.
Proof.
  revert g xs g'. induction k as [| k IH]; intros g xs g' H; simpl in H.
  - by inversion H.
  - apply bind_ok in H as ([x g1] & _ & H).
    apply bind_ok in H as ([xs' g2] & Hxs & H).
    inversion H; subst. simpl. f_equal. eapply IH, Hxs.
Qed.

(** Whatever the distribution, a generated sequence has the requested
    number of items, none when the request is negative. *)
Lemma get_inputs_length (n : Z) (g : rng) (inputs : list value) (g' : rng) :
  inputs_of n gen_kwargs g = Ok (inputs, g') -> len inputs = Z.max 0 n.
Proof.
  unfold get_inputs, len. intros H. apply bind_ok in H as (_ & _ & H).
  revert H.
  destruct (String.eqb distribution "random_integers").
  { intros H. apply bind_ok in H as (_ & _ & H).
    apply comprehension_length in H. lia. }
  destruct (String.eqb distribution "random_strings").
  { intros H. apply bind_ok in H as (_ & _ & H).
    apply comprehension_length in H. lia. }
  destruct (String.eqb distribution "structured"); [| discriminate].
  intros [= <- <-]. unfold generate_structured_sequence.
  rewrite length_map. apply length_py_range.
Qed.

Lemma sweep_cell_inv (t n : Z) (res : results) (g : rng)
  (st' : results * rng) :
  sweep_cell rng randint choices hash_func distribution gen_kwargs t n
    (res, g) = Ok st' <->
  exists inputs g1 r,
    inputs_of n gen_kwargs g = Ok (inputs, g1) /\
    run_collision_experiment hash_func t inputs = Ok r /\
    st' = (<[(t, n) := r]> res, g1).
Proof.
  unfold sweep_cell. split.
  - intros H. apply bind_ok in H as ([inputs g1] & Hin & H).
    apply bind_ok in H as (r & Hr & H). inversion H; subst.
    by exists inputs, g1, r.
  - intros (inputs & g1 & r & -> & Hr & ->). simpl. by rewrite Hr.
Qed.

Lemma cells_chain_app (cells1 cells2 : list (cell rng))
  (st st' : results * rng) :
  chain st (cells1 ++ cells2) st' <->
  exists mid, chain st cells1 mid /\ chain mid cells2 st'.
Proof.
  revert st. induction cells1 as [| c cells1 IH]; intros st; simpl.
  - split; [intros H; by exists st | by intros (mid & -> & H)].
  - rewrite IH. split.
    + intros (H1 & H2 & H3 & mid & H4 & H5). by exists mid.
    + intros (mid & (H1 & H2 & H3 & H4) & H5). eauto 10.
Qed.

(** The inner loop runs the cells of one table size, in the order of
    [input_sizes]. *)
Lemma sweep_inner_cells (t : Z) (input_sizes : list Z)
  (st st' : results * rng) :
  sweep_inner rng randint choices hash_func distribution gen_kwargs t
    input_sizes st = Ok st' <->
  exists cells,
    map cell_key cells = map (pair t) input_sizes /\ chain st cells st'.
Proof.
  revert st. induction input_sizes as [| n ns IH]; intros [res g];
    cbn [sweep_inner map].
  - split.
    + intros [= <-]. by exists [].
    + intros ([| c cells] & Hk & H); simpl in *; [by rewrite H | done].
  - split.
    + intros H. apply bind_ok in H as (st1 & Hc & H).
      apply sweep_cell_inv in Hc as (inputs & g1 & r & Hin & Hr & ->).
      apply IH in H as (cells & Hk & H).
      exists ({| cell_table_size := t; cell_input_size := n;
                 cell_rng := g; cell_inputs := inputs; cell_rng' := g1;
                 cell_result := r |} :: cells).
      simpl. unfold cell_key at 1. simpl. by rewrite Hk.
    + intros ([| c cells] & Hk & H); simpl in Hk, H; [done |].
      destruct H as (Hg & Hin & Hr & H).
      unfold cell_key at 1 in Hk. unfold cell_key in H.
      injection Hk as Ht Hn Hk. rewrite Ht, Hn in *. subst g.
      assert (Hcell : sweep_cell rng randint choices hash_func distribution
                        gen_kwargs t n (res, cell_rng c)
                      = Ok (<[(t, n) := cell_result c]> res, cell_rng' c)).
      { apply sweep_cell_inv. eauto 10. }
      rewrite Hcell. cbn [bind]. apply IH. eauto.
Qed.

(** The two nested loops run the cells of the cross product, table size
    by table size. *)
Lemma sweep_outer_cells (table_sizes input_sizes : list Z)
  (st st' : results * rng) :
  sweep_outer rng randint choices hash_func distribution gen_kwargs
    table_sizes input_sizes st = Ok st' <->
  exists cells,
    map cell_key cells = list_prod table_sizes input_sizes /\
    chain st cells st'.
Proof.
  revert st. induction table_sizes as [| t ts IH]; intros st;
    cbn [sweep_outer list_prod].
  - split.
    + intros [= <-]. by exists [].
    + intros ([| c cells] & Hk & H); simpl in *; [by rewrite H | done].
  - split.
    + intros H. apply bind_ok in H as (st1 & Hin & H).
      apply sweep_inner_cells in Hin as (cells1 & Hk1 & H1).
      apply IH in H as (cells2 & Hk2 & H2).
      exists (cells1 ++ cells2). rewrite map_app, Hk1, Hk2.
      split; [done |]. apply cells_chain_app. eauto.
    + intros (cells & Hk & H).
      apply map_eq_app in Hk as (cells1 & cells2 & -> & Hk1 & Hk2).
      apply cells_chain_app in H as (mid & H1 & H2).
      assert (Hin : sweep_inner rng randint choices hash_func distribution
                      gen_kwargs t input_sizes st = Ok mid)
        by (apply sweep_inner_cells; eauto).
      rewrite Hin. cbn [bind]. apply IH. eauto.
Qed.

(** A key of the final collection holds the result of a cell run under
    that key, and a key under which no cell ran is as it was. *)
Lemma cells_chain_lookup (cells : list (cell rng)) (st st' : results * rng)
  (k : Z * Z) :
  chain st cells st' ->
  (~ In k (map cell_key cells) /\ st'.1 !! k = st.1 !! k) \/
  (exists c, In c cells /\ cell_key c = k /\
             st'.1 !! k = Some (cell_result c)).
Proof.
  revert st. induction cells as [| c cells IH]; intros st H; simpl in H.
  - subst. left. split; [by intros [] | done].
  - destruct H as (_ & _ & _ & H). apply IH in H as [[Hk H] | H].
    + simpl in H. destruct (decide (cell_key c = k)) as [Heq | Hne].
      * right. exists c. rewrite Heq, lookup_insert_eq in H.
        split; [by left | done].
      * left. rewrite lookup_insert_ne in H by done.
        split; [| done]. simpl. intros [Heq | Hin]; done.
    + right. destruct H as (c' & Hin & Hk & H). exists c'.
      split; [by right | done].
Qed.

Lemma cells_chain_lengths (cells : list (cell rng)) (st st' : results * rng) :
  chain st cells st' ->
  Forall (fun c => len (cell_inputs c) = cell_input_size c) cells.
Proof.
  revert st. induction cells as [| c cells IH]; intros st H; simpl in H.
  - constructor.
  - destruct H as (_ & Hin & Hr & H). constructor; [| eapply IH, H].
    apply get_inputs_length in Hin.
    apply run_collision_experiment_inv in Hr as (Hne & _).
    destruct (cell_inputs c); [done |]. unfold len in *. simpl in *. lia.
Qed.

End SweepFacts.

Lemma run_collision_experiment_total (hash_func : value -> Z -> result Z)
  (table_size : Z) (inputs : list value) :
  0 < table_size ->
  (forall v, In v inputs ->
     exists idx, hash_func v table_size = Ok idx /\ 0 <= idx < table_size) ->
  inputs <> [] ->
  exists r, run_collision_experiment hash_func table_size inputs = Ok r.
Proof.
  intros Ht Hh Hne.
  destruct (experiment_loop_total hash_func table_size inputs
              (py_repeat 0 table_size) 0) as [[bc c] Hloop]; [| done |].
  { unfold len. rewrite length_py_repeat. lia. }
  eexists {| total_collisions := c; bucket_counts := bc |}.
  apply run_collision_experiment_inv. simpl. by repeat split.
Qed.

Lemma bind_positional_ok (kw : kwargs) :
  kw !! "distribution" = None -> kw !! "n" = None ->
  bind_positional ["distribution"; "n"]%string kw = Ok tt.
Proof.
  intros Hd Hn. unfold bind_positional. simpl.
  by rewrite !bool_decide_eq_true_2.
Qed.

Lemma bind_keywords_allowed (allowed : list string) (kw : kwargs) :
  (forall name, is_Some (kw !! name) -> In name allowed) ->
  bind_keywords allowed kw = Ok tt.
Proof.
  intros Hall. unfold bind_keywords.
  destruct (forallb _ _) eqn:Hf; [done |].
  apply not_true_iff_false in Hf. exfalso. apply Hf.
  apply forallb_forall. intros name Hin.
  apply bool_decide_eq_true, list_elem_of_In, Hall.
  by apply elem_of_dom, elem_of_elements, list_elem_of_In.
Qed.

Section SweepTotal.

Variable rng : Type.
Variable randint : Z -> Z -> rng -> result (Z * rng).
Variable choices : pystr -> Z -> rng -> result (pystr * rng).
Variable hash_func : value -> Z -> result Z.
Variable distribution : string.
Variable gen_kwargs : kwargs.
Hypothesis generates :
  can_generate rng randint choices distribution gen_kwargs.

Lemma comprehension_total {A : Type} (e : rng -> result (A * rng)) (k : nat)
  (g : rng) :
  (forall g0, exists x g1, e g0 = Ok (x, g1)) ->
  exists xs g', comprehension rng e k g = Ok (xs, g').
Proof.
  intros He. revert g. induction k as [| k IH]; intros g; simpl; [eauto |].
  destruct (He g) as (x & g1 & ->). simpl.
  destruct (IH g1) as (xs & g2 & ->). simpl. eauto.
Qed.

(** Under [can_generate], [get_inputs] returns for every count and from
    every state of the random source. *)
Lemma get_inputs_total (n : Z) (g : rng) :
  exists inputs g',
    get_inputs rng randint choices distribution n gen_kwargs g
    = Ok (inputs, g').
Proof.
  unfold get_inputs.
  destruct generates
    as [(-> & Hkw & Hlib) | [(-> & Hkw & Hlib) | (-> & Hd & Hn)]].
  - assert (Hn : gen_kwargs !! "n" = None).
    { destruct (gen_kwargs !! "n") eqn:E; [| done].
      destruct (Hkw "n"%string) as [H | H]; [by rewrite E | |];
        discriminate H. }
    assert (Hd : gen_kwargs !! "distribution" = None).
    { destruct (gen_kwargs !! "distribution") eqn:E; [| done].
      destruct (Hkw "distribution"%string) as [H | H]; [by rewrite E | |];
        discriminate H. }
    rewrite bind_positional_ok by done. cbn [bind].
    rewrite (bind_keywords_allowed ["low"; "high"]%string).
    + simpl. apply comprehension_total. intros g0.
      destruct (Hlib g0) as (x & g1 & ->). simpl. eauto.
    + intros name Hname. destruct (Hkw name Hname) as [-> | ->];
        simpl; eauto.
  - assert (Hn : gen_kwargs !! "n" = None).
    { destruct (gen_kwargs !! "n") eqn:E; [| done].
      assert (H : "n"%string = "length"%string)
        by (apply Hkw; by rewrite E).
      discriminate H. }
    assert (Hd : gen_kwargs !! "distribution" = None).
    { destruct (gen_kwargs !! "distribution") eqn:E; [| done].
      assert (H : "distribution"%string = "length"%string)
        by (apply Hkw; by rewrite E).
      discriminate H. }
    rewrite bind_positional_ok by done. cbn [bind].
    rewrite (bind_keywords_allowed ["length"]%string).
    + simpl. apply comprehension_total. intros g0.
      destruct (Hlib g0) as (x & g1 & ->). simpl. eauto.
    + intros name Hname. rewrite (Hkw name Hname). by left.
  - rewrite bind_positional_ok by done. simpl. eauto.
Qed.

Lemma sweep_inner_total (t : Z) (input_sizes : list Z)
  (st : gmap (Z * Z) ExperimentResult * rng) :
  1 <= t ->
  (forall v, exists idx, hash_func v t = Ok idx /\ 0 <= idx < t) ->
  Forall (fun n => 1 <= n) input_sizes ->
  exists st',
    sweep_inner rng randint choices hash_func distribution gen_kwargs t
      input_sizes st = Ok st'.
Proof.
  intros Ht Hh Hns. revert st.
  induction Hns as [| n ns Hn Hns IH]; intros [res g]; simpl; [eauto |].
  destruct (get_inputs_total n g) as (inputs & g1 & Hin).
  rewrite Hin. simpl.
  destruct (run_collision_experiment_total hash_func t inputs) as [r Hr];
    [lia | by intros v _ | |].
  { apply get_inputs_length in Hin. intros ->.
    unfold len in Hin. simpl in Hin. lia. }
  rewrite Hr. simpl. apply IH.
Qed.

Lemma sweep_outer_total (table_sizes input_sizes : list Z)
  (st : gmap (Z * Z) ExperimentResult * rng) :
  Forall (fun t => 1 <= t) table_sizes ->
  Forall (fun n => 1 <= n) input_sizes ->
  (forall t v, In t table_sizes ->
     exists idx, hash_func v t = Ok idx /\ 0 <= idx < t) ->
  exists st',
    sweep_outer rng randint choices hash_func distribution gen_kwargs
      table_sizes input_sizes st = Ok st'.
Proof.
  intros Hts Hns. revert st.
  induction Hts as [| t ts Ht Hts IH]; intros st Hh; simpl; [eauto |].
  destruct (sweep_inner_total t input_sizes st) as [st1 ->];
    [done | intros v; apply Hh; by left | done |].
  simpl. apply IH. intros t' v Ht'. apply Hh. by right.
Qed.

End SweepTotal.


(** ** Evaluation on concrete inputs *)

Example str_of_integers :
  str (PyInt 0) = pystr_of_string "0" /\
  str (PyInt 120) = pystr_of_string "120" /\
  str (PyInt (-15)) = pystr_of_string "-15".
Proof. by repeat split. Qed.

Example polynomial_hash_abc :
  polynomial_hash (PyStr (pystr_of_string "abc")) 100 default_base
  = Ok ((((97 * 31 + 98) mod 100) * 31 + 99) mod 100).
Proof. reflexivity. Qed.

Example negative_subscript_counts_from_end :
  py_getitem [7; 8; 9] (-1) = Ok 9 /\
  py_getitem [7; 8; 9] 3 = Raise IndexError /\
  py_getitem [7; 8; 9] (-4) = Raise IndexError.
Proof. by repeat split. Qed.

(** Two cells with the same input size do not share their inputs: with the
    counting random source the cell of table size 5 hashes the draws 0 and
    1, the cell of table size 7 hashes the draws 2 and 3. *)
Example sweep_regenerates_inputs :
  exists res g',
    run_sweep_experiments nat counter_randint counter_choices
      (modulo_hash sample_hash) "random_integers" ∅ [5; 7] [2] 0%nat
    = Ok (res, g') /\
    bucket_counts <$> res !! (5, 2) = Some [1; 1; 0; 0; 0] /\
    bucket_counts <$> res !! (7, 2) = Some [0; 0; 1; 1; 0; 0; 0].
Proof. eexists _, _. split; [reflexivity |]. by split. Qed.

Lemma collision_counting_rule_witness :
  0 < 10 /\
  experiment_loop (modulo_hash sample_hash) 10 [PyInt 5; PyInt 5]
    (py_repeat 0 10, 0) = Ok ([0; 0; 0; 0; 0; 2; 0; 0; 0; 0], 1) /\
  modulo_hash sample_hash (PyInt 5) 10 = Ok 5 /\
  0 <= 5 < 10 /\
  ((exists occ r,
      py_getitem [0; 0; 0; 0; 0; 2; 0; 0; 0; 0] 5 = Ok occ /\
      run_collision_experiment (modulo_hash sample_hash) 10
        ([PyInt 5; PyInt 5] ++ [PyInt 5]) = Ok r /\
      bucket_counts r
      = <[Z.to_nat 5 := occ + 1]> [0; 0; 0; 0; 0; 2; 0; 0; 0; 0] /\
      total_collisions r = (if 0 <? occ then 1 + 1 else 1))
   /\
   (forall py_hash, exists r,
      run_collision_experiment (modulo_hash py_hash) 10
        [PyInt 5; PyInt 5; PyInt 5] = Ok r /\
      py_getitem (bucket_counts r) 5 = Ok 3 /\
      total_collisions r = 2)).
Proof.
  split; [lia |]. split; [reflexivity |]. split; [reflexivity |].
  split; [lia |].
  apply (collision_counting_rule (modulo_hash sample_hash) 10
           [PyInt 5; PyInt 5] (PyInt 5) [0; 0; 0; 0; 0; 2; 0; 0; 0; 0] 1 5);
    [lia | reflexivity | reflexivity | lia].
Defined.

(** The hash contract on an explicit list of inputs, input by input. *)
Ltac contract_by_cases :=
  intros ? Hin; simpl in Hin;
  repeat match type of Hin with
         | _ \/ _ =>
             destruct Hin as [Hin | Hin];
             [subst; eexists; split; [reflexivity | apply Z.mod_pos_bound; lia] |]
         end;
  destruct Hin.

Lemma experiment_result_invariant_witness :
  0 < 4 /\
  (forall v, In v [PyInt 9; PyInt (-3); PyInt 1] ->
     exists idx, modulo_hash sample_hash v 4 = Ok idx /\ 0 <= idx < 4) /\
  ([PyInt 9; PyInt (-3); PyInt 1] <> [] ->
   exists r, run_collision_experiment (modulo_hash sample_hash) 4
               [PyInt 9; PyInt (-3); PyInt 1] = Ok r) /\
  (forall r, run_collision_experiment (modulo_hash sample_hash) 4
               [PyInt 9; PyInt (-3); PyInt 1] = Ok r ->
     py_sum (bucket_counts r) = len [PyInt 9; PyInt (-3); PyInt 1] /\
     len (bucket_counts r) = 4).
Proof.
  split; [lia |]. split; [contract_by_cases |].
  apply (experiment_result_invariant (modulo_hash sample_hash) 4
           [PyInt 9; PyInt (-3); PyInt 1]); [lia | contract_by_cases].
Defined.

Lemma collisions_complement_occupied_witness :
  0 < 4 /\
  (forall v, In v [PyInt 9; PyInt (-3); PyInt 1] ->
     exists idx, modulo_hash sample_hash v 4 = Ok idx /\ 0 <= idx < 4) /\
  ([PyInt 9; PyInt (-3); PyInt 1] <> [] ->
   exists r, run_collision_experiment (modulo_hash sample_hash) 4
               [PyInt 9; PyInt (-3); PyInt 1] = Ok r) /\
  (forall r, run_collision_experiment (modulo_hash sample_hash) 4
               [PyInt 9; PyInt (-3); PyInt 1] = Ok r ->
     total_collisions r
     = len [PyInt 9; PyInt (-3); PyInt 1] - occupied (bucket_counts r) /\
     0 <= total_collisions r <= len [PyInt 9; PyInt (-3); PyInt 1] - 1 /\
     (0 <= collision_probability r < 1)%Q).
Proof.
  split; [lia |]. split; [contract_by_cases |].
  apply (collisions_complement_occupied (modulo_hash sample_hash) 4
           [PyInt 9; PyInt (-3); PyInt 1]); [lia | contract_by_cases].
Defined.

Lemma hash_index_in_range_witness :
  0 < 7 /\
  (exists i, modulo_hash sample_hash (PyInt (-3)) 7 = Ok i /\ 0 <= i < 7) /\
  (exists i, polynomial_hash (PyInt (-3)) 7 (-2) = Ok i /\ 0 <= i < 7) /\
  (exists i, built_in_hash sample_hash (PyInt (-3)) 7 = Ok i /\ 0 <= i < 7).
Proof.
  split; [lia |]. apply (hash_index_in_range sample_hash (PyInt (-3)) 7 (-2)).
  lia.
Defined.

Lemma polynomial_hash_is_rolling_fold_witness :
  0 < 100 /\
  polynomial_hash (PyInt 42) 100 default_base
  = Ok (polynomial_rolling_spec 100 default_base (str (PyInt 42))) /\
  polynomial_hash (PyStr []) 100 default_base = Ok 0.
Proof.
  split; [lia |].
  apply (polynomial_hash_is_rolling_fold (PyInt 42) 100 default_base). lia.
Defined.

Lemma modulo_hash_nonnegative_remainder_witness :
  0 < 5 /\
  exists r,
    modulo_hash sample_hash (PyInt (-7)) 5 = Ok r /\
    r = ((-7 mod 5) + 5) mod 5 /\
    r = ((Z.rem (-7) 5) + 5) mod 5 /\
    0 <= r < 5 /\
    (5 | r - -7).
Proof.
  split; [lia |].
  apply (modulo_hash_nonnegative_remainder sample_hash (-7) 5). lia.
Defined.

Example modulo_hash_minus_seven : modulo_hash sample_hash (PyInt (-7)) 5 = Ok 3.
Proof. reflexivity. Qed.

(** Against C5: a negative table size is accepted, and so is a table size
    of 0 on the empty string; where a table size of 0 does fail, the
    exception is the interpreter's. *)
Lemma table_size_not_rejected :
  -3 <= 0 /\
  modulo_hash sample_hash (PyInt 5) (-3) = Ok (-1) /\
  built_in_hash sample_hash (PyInt 5) (-3) = Ok (-1) /\
  polynomial_hash (PyStr []) 0 default_base = Ok 0 /\
  modulo_hash sample_hash (PyInt 5) 0 = Raise ZeroDivisionError.
Proof. split; [lia |]. by repeat split. Qed.

Lemma hash_table_size_unchecked_witness :
  -3 <= 0 /\
  (-3 = 0 ->
     modulo_hash sample_hash (PyInt 5) (-3) = Raise ZeroDivisionError /\
     built_in_hash sample_hash (PyInt 5) (-3) = Raise ZeroDivisionError /\
     polynomial_hash (PyInt 5) (-3) default_base
     = match str (PyInt 5) with
       | [] => Ok 0
       | _ :: _ => Raise ZeroDivisionError
       end) /\
  (-3 < 0 ->
     (exists i, modulo_hash sample_hash (PyInt 5) (-3) = Ok i /\ -3 < i <= 0) /\
     (exists i, built_in_hash sample_hash (PyInt 5) (-3) = Ok i /\
                -3 < i <= 0) /\
     (exists i, polynomial_hash (PyInt 5) (-3) default_base = Ok i /\
                -3 < i <= 0)).
Proof.
  split; [lia |].
  apply (hash_table_size_unchecked sample_hash (PyInt 5) (-3) default_base).
  lia.
Defined.

(** Against C4: the failure on an empty input sequence is the arithmetic
    fault of the division itself. *)
Lemma empty_input_arithmetic_fault :
  exists e,
    run_collision_experiment (modulo_hash sample_hash) 10 [] = Raise e /\
    arithmetic_fault e = true.
Proof. exists ZeroDivisionError. by split. Qed.

(** Against C6 at [n = 0]: the structured sequence is empty and the runner
    returns no result. *)
Lemma structured_empty_no_result :
  0 <= 0 /\ 0 <= 5 /\
  generate_structured_sequence 0 = [] /\
  run_collision_experiment (modulo_hash sample_hash) 5
    (generate_structured_sequence 0) = Raise ZeroDivisionError.
Proof. by repeat split. Qed.

Lemma structured_modulo_no_collision_witness :
  1 <= 3 /\ 3 <= 5 /\
  exists r,
    run_collision_experiment (modulo_hash sample_hash) 5
      (generate_structured_sequence 3) = Ok r /\
    total_collisions r = 0 /\
    bucket_counts r
    = replicate (Z.to_nat 3) 1 ++ replicate (Z.to_nat (5 - 3)) 0.
Proof.
  split; [lia |]. split; [lia |].
  apply (structured_modulo_no_collision sample_hash 3 5); lia.
Defined.


Lemma sample_sizes_contract (t : Z) (v : value) :
  In t [5; 7] ->
  exists idx, modulo_hash sample_hash v t = Ok idx /\ 0 <= idx < t.
Proof.
  intros [<- | [<- | []]]; destruct v; simpl; eexists;
    (split; [reflexivity | apply Z.mod_pos_bound; lia]).
Qed.

Lemma counter_can_generate :
  can_generate nat counter_randint counter_choices "random_integers" ∅.
Proof.
  left. split; [reflexivity |]. split.
  - intros name [x Hx]. by rewrite lookup_empty in Hx.
  - intros g. eexists _, _. reflexivity.
Qed.



(** ** The runner as a histogram *)

Section Histogram.

Variable hash_func : value -> Z -> result Z.
Variable table_size : Z.

Local Abbreviation step := (experiment_step hash_func table_size).
Local Abbreviation loop := (experiment_loop hash_func table_size).
Local Abbreviation bucket := (bucket_of hash_func table_size).
Local Abbreviation landing := (landing_in hash_func table_size).

Lemma py_index_length {A B : Type} (l : list A) (l' : list B) (i : Z) :
  length l = length l' -> py_index l i = py_index l' i.
Proof. intros H. unfold py_index, len. by rewrite H. Qed.

Lemma py_index_bound {A : Type} (l : list A) (i : Z) (k : nat) :
  py_index l i = Ok k -> (k < length l)%nat.
Proof.
  unfold py_index, len.
  destruct (Z.leb_spec 0 i), (Z.ltb_spec i (Z.of_nat (length l))); simpl;
    try (intros [= <-]; lia);
    destruct (Z.leb_spec (- Z.of_nat (length l)) i), (Z.ltb_spec i 0);
    simpl; try discriminate; intros [= <-]; lia.
Qed.

(** One iteration in terms of the bucket of its input. *)
Lemma experiment_step_bucket (bc : list Z) (c : Z) (v : value) :
  length bc = Z.to_nat table_size ->
  match bucket v with
  | Some k =>
      exists occ, bc !! k = Some occ /\
        step (bc, c) v
        = Ok (<[k := occ + 1]> bc, if 0 <? occ then c + 1 else c)
  | None => exists e, step (bc, c) v = Raise e
  end.
Proof.
  intros Hlen. unfold bucket_of, experiment_step.
  destruct (hash_func v table_size) as [idx | e]; simpl; [| eauto].
  rewrite <- (py_index_length bc) by (by rewrite length_py_repeat).
  unfold py_getitem, py_setitem.
  destruct (py_index bc idx) as [k | e] eqn:Hk; simpl; [| eauto].
  destruct (lookup_lt_is_Some_2 bc k) as [occ Hocc];
    [by eapply py_index_bound |].
  exists occ. by rewrite Hocc.
Qed.

Lemma landing_in_cons (k : nat) (v : value) (inputs : list value) :
  landing k (v :: inputs)
  = (if decide (bucket v = Some k) then 1 else 0) + landing k inputs.
Proof.
  unfold landing_in, len. rewrite filter_cons.
  destruct (decide (bucket v = Some k)); simpl length; lia.
Qed.

(** The loop returns exactly when every input has a bucket, and then each
    bucket has grown by the number of inputs counted in it. *)
Lemma experiment_loop_histogram (inputs : list value) (bc : list Z) (c : Z) :
  length bc = Z.to_nat table_size ->
  (Forall (fun v => is_Some (bucket v)) inputs ->
   exists st, loop inputs (bc, c) = Ok st) /\
  (forall bc' c', loop inputs (bc, c) = Ok (bc', c') ->
     Forall (fun v => is_Some (bucket v)) inputs /\
     forall k, bc' !! k = (fun x => x + landing k inputs) <$> bc !! k).
Proof.
  revert bc c. induction inputs as [| v inputs IH]; intros bc c Hlen.
  - split; [simpl; eauto |]. intros bc' c' [= <- <-]. split; [done |].
    intros k. unfold landing_in, len. simpl.
    destruct (bc !! k); simpl; [f_equal; lia | done].
  - pose proof (experiment_step_bucket bc c v Hlen) as Hstep.
    destruct (bucket v) as [kv |] eqn:Hb.
    + destruct Hstep as (occ & Hocc & Hstep).
      assert (Hlen1 : length (<[kv := occ + 1]> bc) = Z.to_nat table_size)
        by (by rewrite length_insert).
      destruct (IH (<[kv := occ + 1]> bc)
                  (if 0 <? occ then c + 1 else c) Hlen1) as [IH1 IH2].
      cbn [experiment_loop]. rewrite Hstep. cbn [bind]. split.
      * intros Hall. apply IH1. by inversion Hall.
      * intros bc' c' H. apply IH2 in H as [Hall Hk]. split.
        { constructor; [by rewrite Hb | done]. }
        intros k. rewrite Hk, landing_in_cons, Hb.
        destruct (decide (Some kv = Some k)) as [[= ->] | Hne].
        -- rewrite list_lookup_insert_eq by (by eapply lookup_lt_Some).
           rewrite Hocc. simpl. f_equal. lia.
        -- rewrite list_lookup_insert_ne by congruence.
           destruct (bc !! k); simpl; [f_equal; lia | done].
    + destruct Hstep as (e & Hstep).
      cbn [experiment_loop]. rewrite Hstep. cbn [bind]. split.
      * intros Hall. inversion Hall as [| ? ? [? Hsome] ?]; subst.
        rewrite Hb in Hsome. discriminate.
      * intros bc' c'. discriminate.
Qed.

Lemma lookup_py_repeat_0 (k : nat) :
  (k < Z.to_nat table_size)%nat -> py_repeat 0 table_size !! k = Some 0.
Proof. intros Hk. unfold py_repeat. by apply lookup_replicate_2. Qed.

(** The complete description of a run that returns. *)
Lemma run_collision_experiment_histogram (inputs : list value)
  (r : ExperimentResult) :
  run_collision_experiment hash_func table_size inputs = Ok r <->
  inputs <> [] /\
  Forall (fun v => is_Some (bucket v)) inputs /\
  bucket_counts r
  = map (fun k => landing k inputs) (seq 0 (Z.to_nat table_size)) /\
  total_collisions r = len inputs - occupied (bucket_counts r) /\
  collision_probability r
  = Qdiv (inject_Z (total_collisions r)) (inject_Z (len inputs)).
Proof.
  assert (Hlen0 : length (py_repeat 0 table_size) = Z.to_nat table_size)
    by apply length_py_repeat.
  destruct (experiment_loop_histogram inputs (py_repeat 0 table_size) 0 Hlen0)
    as [Htotal Hhist].
  assert (Hlist : forall bc' c',
             loop inputs (py_repeat 0 table_size, 0) = Ok (bc', c') ->
             bc' = map (fun k => landing k inputs)
                     (seq 0 (Z.to_nat table_size)) /\
             c' = len inputs - occupied bc').
  { intros bc' c' Hloop.
    destruct (Hhist _ _ Hloop) as [_ Hk].
    destruct (experiment_loop_invariant _ _ _ _ _ _ _ Hloop)
      as (Hlen & _ & _ & _ & Hcol); [apply Forall_nonneg_py_repeat |].
    unfold py_repeat in Hcol. rewrite occupied_replicate_0 in Hcol.
    split; [| lia].
    apply list_eq. intros k. rewrite Hk.
    destruct (decide (k < Z.to_nat table_size)%nat) as [Hlt | Hge].
    - rewrite lookup_py_repeat_0 by done. simpl.
      rewrite list_lookup_fmap, lookup_seq_lt by done. done.
    - rewrite (lookup_ge_None_2 (py_repeat 0 table_size)) by lia.
      rewrite list_lookup_fmap, lookup_seq_ge by lia. done. }
  rewrite run_collision_experiment_inv. split.
  - intros (Hne & Hloop & Hp).
    destruct (Hhist _ _ Hloop) as [Hall _].
    destruct (Hlist _ _ Hloop) as [Hbc Hc]. done.
  - intros (Hne & Hall & Hbc & Hc & Hp).
    destruct (Htotal Hall) as [[bc' c'] Hloop].
    destruct (Hlist _ _ Hloop) as [Hbc' Hc'].
    rewrite <- Hbc in Hbc'. subst bc'. rewrite <- Hc in Hc'. subst c'.
    done.
Qed.

End Histogram.

Lemma is_Some_bucket_perm (hash_func : value -> Z -> result Z)
  (table_size : Z) (l l' : list value) :
  Permutation l l' ->
  Forall (fun v => is_Some (bucket_of hash_func table_size v)) l ->
  Forall (fun v => is_Some (bucket_of hash_func table_size v)) l'.
Proof. intros Hp. by rewrite Hp. Qed.

Lemma landing_in_perm (hash_func : value -> Z -> result Z) (table_size : Z)
  (k : nat) (l l' : list value) :
  Permutation l l' ->
  landing_in hash_func table_size k l = landing_in hash_func table_size k l'.
Proof. intros Hp. unfold landing_in, len. by rewrite Hp. Qed.

Lemma landing_in_app (hash_func : value -> Z -> result Z) (table_size : Z)
  (k : nat) (l l' : list value) :
  landing_in hash_func table_size k (l ++ l')
  = landing_in hash_func table_size k l
    + landing_in hash_func table_size k l'.
Proof. unfold landing_in, len. rewrite filter_app, length_app. lia. Qed.

Lemma landing_in_nonneg (hash_func : value -> Z -> result Z) (table_size : Z)
  (k : nat) (l : list value) : 0 <= landing_in hash_func table_size k l.
Proof. unfold landing_in, len. lia. Qed.

(** The returned [bucket_counts] is the histogram of the inputs: entry [k]
    is the number of inputs whose hash index designates bucket [k]. *)
Theorem bucket_counts_histogram (hash_func : value -> Z -> result Z)
  (table_size : Z) (inputs : list value) (r : ExperimentResult) :
  run_collision_experiment hash_func table_size inputs = Ok r ->
  bucket_counts r
  = map (fun k => landing_in hash_func table_size k inputs)
      (seq 0 (Z.to_nat table_size)).
Proof.
  intros H. by apply run_collision_experiment_histogram in H as (_ & _ & H & _).
Qed.

(** The runner returns a result exactly when the input sequence is not
    empty and every input has a bucket, that is, its hash is computed
    without an exception and is a valid subscript of the table. *)
Theorem run_collision_experiment_returns (hash_func : value -> Z -> result Z)
  (table_size : Z) (inputs : list value) :
  (exists r, run_collision_experiment hash_func table_size inputs = Ok r) <->
  inputs <> [] /\
  Forall (fun v => is_Some (bucket_of hash_func table_size v)) inputs.
Proof.
  split.
  - intros [r H].
    by apply run_collision_experiment_histogram in H as (? & ? & _).
  - intros [Hne Hall].
    set (bc := map (fun k => landing_in hash_func table_size k inputs)
                 (seq 0 (Z.to_nat table_size))).
    exists {| total_collisions := len inputs - occupied bc;
              collision_probability :=
                Qdiv (inject_Z (len inputs - occupied bc))
                  (inject_Z (len inputs));
              bucket_counts := bc |}.
    by apply run_collision_experiment_histogram.
Qed.

(** The result does not depend on the order of the inputs. *)
Theorem run_collision_experiment_permutation
  (hash_func : value -> Z -> result Z) (table_size : Z)
  (inputs inputs' : list value) (r : ExperimentResult) :
  Permutation inputs inputs' ->
  run_collision_experiment hash_func table_size inputs = Ok r ->
  run_collision_experiment hash_func table_size inputs' = Ok r.
Proof.
  intros Hp H.
  apply run_collision_experiment_histogram in H
    as (Hne & Hall & Hbc & Hc & Hprob).
  apply run_collision_experiment_histogram.
  assert (Hlen : len inputs' = len inputs)
    by (unfold len; by rewrite Hp).
  rewrite Hlen. repeat split; try done.
  - intros ->. apply Permutation_nil_r in Hp. done.
  - by eapply is_Some_bucket_perm.
  - rewrite Hbc. apply map_ext. intros k. by apply landing_in_perm.
Qed.

Lemma bucket_of_no_table (hash_func : value -> Z -> result Z)
  (table_size : Z) (v : value) :
  table_size <= 0 -> bucket_of hash_func table_size v = None.
Proof.
  intros Ht. unfold bucket_of.
  destruct (hash_func v table_size) as [idx | e]; [| done].
  destruct (py_index (py_repeat 0 table_size) idx) as [k | e] eqn:Hk;
    [| done].
  apply py_index_bound in Hk. rewrite length_py_repeat in Hk. lia.
Qed.

(** More inputs than buckets force collisions: at least
    [len(inputs) - table_size] of them. *)
Theorem collisions_pigeonhole (hash_func : value -> Z -> result Z)
  (table_size : Z) (inputs : list value) (r : ExperimentResult) :
  run_collision_experiment hash_func table_size inputs = Ok r ->
  len inputs - table_size <= total_collisions r.
Proof.
  intros H.
  apply run_collision_experiment_histogram in H
    as (Hne & Hall & Hbc & Hc & _).
  destruct (Z.le_gt_cases table_size 0) as [Hpos | Hpos].
  - destruct inputs as [| v inputs]; [done |].
    inversion Hall as [| ? ? [k Hk] ?]; subst.
    rewrite bucket_of_no_table in Hk by done. discriminate.
  - pose proof (occupied_bounds (bucket_counts r)) as Hocc.
    assert (Hlen : len (bucket_counts r) = table_size).
    { rewrite Hbc. unfold len. rewrite length_map, length_seq. lia. }
    lia.
Qed.

Section NoCollision.

Variable hash_func : value -> Z -> result Z.
Variable table_size : Z.

Local Abbreviation loop := (experiment_loop hash_func table_size).
Local Abbreviation bucket := (bucket_of hash_func table_size).

(** Started on a table, the loop counts no collision exactly when its
    inputs go to distinct buckets, all of them empty at the start. *)
Lemma experiment_loop_no_collision (inputs : list value) (bc : list Z)
  (c : Z) (bc' : list Z) (c' : Z) :
  length bc = Z.to_nat table_size ->
  Forall (fun x => 0 <= x) bc ->
  loop inputs (bc, c) = Ok (bc', c') ->
  c' = c <->
  NoDup (map bucket inputs) /\
  (forall v k, In v inputs -> bucket v = Some k -> bc !! k = Some 0).
Proof.
  revert bc c. induction inputs as [| v inputs IH]; intros bc c Hlen Hpos H.
  - simpl in H. inversion H; subst. simpl. split; [| done].
    intros _. split; [constructor | by intros ? ? []].
  - pose proof (experiment_step_bucket hash_func table_size bc c v Hlen)
      as Hstep.
    cbn [experiment_loop] in H.
    destruct (bucket v) as [kv |] eqn:Hb.
    + destruct Hstep as (occ & Hocc & Hstep).
      rewrite Hstep in H. cbn [bind] in H.
      assert (Hocc0 : 0 <= occ)
        by (eapply (proj1 (Forall_lookup _ _) Hpos); eauto).
      assert (Hlen1 : length (<[kv := occ + 1]> bc) = Z.to_nat table_size)
        by (by rewrite length_insert).
      assert (Hpos1 : Forall (fun x => 0 <= x) (<[kv := occ + 1]> bc))
        by (apply Forall_insert; [done | lia]).
      destruct (experiment_loop_invariant _ _ _ _ _ _ _ H Hpos1)
        as (_ & _ & _ & Hmono & _).
      specialize (IH _ _ Hlen1 Hpos1 H).
      assert (Hkv : <[kv := occ + 1]> bc !! kv = Some (occ + 1))
        by (apply list_lookup_insert_eq; by eapply lookup_lt_Some).
      cbn [map]. rewrite Hb, NoDup_cons. split.
      * intros ->.
        assert (Hz : occ = 0) by (destruct (Z.ltb_spec 0 occ); lia).
        subst occ. simpl in IH, Hmono.
        destruct IH as [IH _]. destruct (IH eq_refl) as [Hnd Hzero].
        split; [split; [| done] |].
        -- intros Hin. apply list_elem_of_fmap in Hin as (v' & Hv' & Hin).
           apply list_elem_of_In in Hin.
           specialize (Hzero v' kv Hin (eq_sym Hv')).
           simpl in Hkv. rewrite Hkv in Hzero. discriminate.
        -- intros v' k [<- | Hin] Hk.
           ++ rewrite Hb in Hk. by inversion Hk; subst.
           ++ specialize (Hzero v' k Hin Hk).
              destruct (decide (kv = k)) as [-> | Hne].
              ** simpl in Hkv. rewrite Hkv in Hzero. discriminate.
              ** by rewrite list_lookup_insert_ne in Hzero.
      * intros [[Hnotin Hnd] Hzero].
        assert (Hz : occ = 0).
        { specialize (Hzero v kv (or_introl eq_refl) Hb).
          rewrite Hocc in Hzero. by inversion Hzero. }
        subst occ. simpl in *. apply IH. split; [done |].
        intros v' k Hin Hk.
        rewrite list_lookup_insert_ne; [by eapply Hzero; eauto |].
        intros ->. apply Hnotin. apply list_elem_of_fmap.
        exists v'. split; [done | by apply list_elem_of_In].
    + destruct Hstep as (e & Hstep). rewrite Hstep in H. discriminate.
Qed.

End NoCollision.

(** A run counts no collision exactly when no two inputs go to the same
    bucket. *)
Theorem no_collision_iff_distinct_buckets
  (hash_func : value -> Z -> result Z) (table_size : Z)
  (inputs : list value) (r : ExperimentResult) :
  run_collision_experiment hash_func table_size inputs = Ok r ->
  total_collisions r = 0 <->
  NoDup (map (bucket_of hash_func table_size) inputs).
Proof.
  intros H. apply run_collision_experiment_inv in H as (_ & Hloop & _).
  pose proof (experiment_loop_no_collision hash_func table_size inputs
                (py_repeat 0 table_size) 0 _ _
                (length_py_repeat 0 table_size)
                (Forall_nonneg_py_repeat table_size) Hloop) as Hiff.
  rewrite Hiff. split; [by intros [? _] |].
  intros Hnd. split; [done |]. intros v k _ Hk.
  apply lookup_py_repeat_0. unfold bucket_of in Hk.
  destruct (hash_func v table_size) as [idx |]; [| done].
  destruct (py_index (py_repeat 0 table_size) idx) as [k' |] eqn:Hidx;
    [| done].
  inversion Hk; subst. apply py_index_bound in Hidx.
  by rewrite length_py_repeat in Hidx.
Qed.

(** ** Subscripts outside the contract *)

Lemma py_index_from_end {A : Type} (l : list A) (i : Z) :
  - len l <= i < 0 -> py_index l i = py_index l (i + len l).
Proof.
  intros Hi. unfold py_index.
  destruct (Z.leb_spec 0 i); [lia |]. simpl.
  destruct (Z.leb_spec (- len l) i), (Z.ltb_spec i 0); try lia. simpl.
  destruct (Z.leb_spec 0 (i + len l)), (Z.ltb_spec (i + len l) (len l));
    try lia. reflexivity.
Qed.

Lemma py_index_out_of_range {A : Type} (l : list A) (i : Z) :
  i < - len l \/ len l <= i -> py_index l i = Raise IndexError.
Proof.
  intros Hi. unfold py_index.
  destruct (Z.leb_spec 0 i), (Z.ltb_spec i (len l)); simpl;
    try (unfold len in *; lia);
    destruct (Z.leb_spec (- len l) i), (Z.ltb_spec i 0); simpl;
    try reflexivity; unfold len in *; lia.
Qed.

Lemma experiment_step_from_the_end (hash_func : value -> Z -> result Z)
  (table_size : Z) (bc : list Z) (c : Z) (v : value) :
  length bc = Z.to_nat table_size ->
  experiment_step (from_the_end hash_func) table_size (bc, c) v
  = experiment_step hash_func table_size (bc, c) v.
Proof.
  intros Hlen. unfold experiment_step, from_the_end.
  destruct (hash_func v table_size) as [idx | e]; [| reflexivity].
  cbn [bind].
  destruct (Z.leb_spec (- table_size) idx), (Z.ltb_spec idx 0);
    cbn [andb bind]; try reflexivity.
  assert (Ht : len bc = table_size) by (unfold len; lia).
  unfold py_getitem, py_setitem.
  rewrite (py_index_from_end bc idx) by lia. by rewrite Ht.
Qed.

Lemma experiment_loop_from_the_end (hash_func : value -> Z -> result Z)
  (table_size : Z) (inputs : list value) (bc : list Z) (c : Z) :
  length bc = Z.to_nat table_size ->
  experiment_loop (from_the_end hash_func) table_size inputs (bc, c)
  = experiment_loop hash_func table_size inputs (bc, c).
Proof.
  revert bc c. induction inputs as [| v inputs IH]; intros bc c Hlen;
    [reflexivity |].
  cbn [experiment_loop]. rewrite experiment_step_from_the_end by done.
  destruct (experiment_step hash_func table_size (bc, c) v)
    as [[bc1 c1] | e] eqn:Hstep; [| reflexivity].
  cbn [bind]. apply IH.
  apply experiment_step_inv in Hstep as (? & ? & ? & _ & _ & _ & -> & _).
  by rewrite length_insert.
Qed.

(** A hash index in [[-table_size, 0)] is not rejected: the runner counts
    it in the bucket [idx + table_size], exceptions included, as if the hash
    function had returned that index. *)
Theorem negative_index_counted_from_the_end
  (hash_func : value -> Z -> result Z) (table_size : Z)
  (inputs : list value) :
  run_collision_experiment hash_func table_size inputs
  = run_collision_experiment (from_the_end hash_func) table_size inputs.
Proof.
  unfold run_collision_experiment.
  rewrite experiment_loop_from_the_end by apply length_py_repeat.
  reflexivity.
Qed.

(** The first input whose hash index is below [-table_size] or at least
    [table_size] makes the runner raise [IndexError]. *)
Theorem index_out_of_range_raises (hash_func : value -> Z -> result Z)
  (table_size : Z) (before after : list value) (v : value) (idx : Z) :
  Forall (fun x => is_Some (bucket_of hash_func table_size x)) before ->
  hash_func v table_size = Ok idx ->
  idx < - table_size \/ table_size <= idx ->
  run_collision_experiment hash_func table_size (before ++ v :: after)
  = Raise IndexError.
Proof.
  intros Hall Hidx Hout.
  destruct (experiment_loop_histogram hash_func table_size before
              (py_repeat 0 table_size) 0 (length_py_repeat 0 table_size))
    as [Htotal _].
  destruct (Htotal Hall) as [[bc c] Hloop].
  destruct (experiment_loop_invariant _ _ _ _ _ _ _ Hloop)
    as (Hlen & _); [apply Forall_nonneg_py_repeat |].
  rewrite length_py_repeat in Hlen.
  unfold run_collision_experiment.
  rewrite experiment_loop_app, Hloop. cbn [bind experiment_loop].
  unfold experiment_step. rewrite Hidx. cbn [bind].
  unfold py_getitem.
  rewrite py_index_out_of_range by (unfold len; lia). reflexivity.
Qed.

(** With a table size of 0 or less the runner returns no result, whatever
    the hash function and the inputs.  With the modulo or the built-in hash
    a non-empty input sequence raises [ZeroDivisionError] for a table size
    of 0 and [IndexError] for a negative one. *)
Theorem no_result_without_buckets (py_hash : value -> Z)
  (hash_func : value -> Z -> result Z) (table_size : Z)
  (inputs : list value) :
  table_size <= 0 ->
  (forall r, run_collision_experiment hash_func table_size inputs <> Ok r) /\
  (inputs <> [] ->
   let e := if table_size =? 0 then ZeroDivisionError else IndexError in
   run_collision_experiment (modulo_hash py_hash) table_size inputs = Raise e /\
   run_collision_experiment (built_in_hash py_hash) table_size inputs
   = Raise e).
Proof.
  intros Ht. split.
  - intros r H.
    apply run_collision_experiment_histogram in H as (Hne & Hall & _).
    destruct inputs as [| v inputs]; [done |].
    inversion Hall as [| ? ? [k Hk] ?]; subst.
    rewrite bucket_of_no_table in Hk by done. discriminate.
  - intros Hne. destruct inputs as [| v inputs]; [done |].
    unfold run_collision_experiment. cbn [experiment_loop].
    unfold experiment_step, built_in_hash.
    assert (Hempty : py_repeat 0 table_size = [])
      by (unfold py_repeat; by replace (Z.to_nat table_size) with 0%nat by lia).
    rewrite Hempty.
    destruct (Z.eqb_spec table_size 0) as [-> | Hnz]; simpl.
    + by destruct v.
    + split; [destruct v; simpl |]; rewrite py_mod_nonzero by done;
        cbn [bind]; unfold py_getitem;
        rewrite py_index_out_of_range by (unfold len; simpl; lia);
        reflexivity.
Qed.

(** Processing further inputs never lowers a bucket count or the number of
    collisions. *)
Theorem more_inputs_more_collisions (hash_func : value -> Z -> result Z)
  (table_size : Z) (inputs more : list value) (r r' : ExperimentResult) :
  run_collision_experiment hash_func table_size inputs = Ok r ->
  run_collision_experiment hash_func table_size (inputs ++ more) = Ok r' ->
  total_collisions r <= total_collisions r' /\
  Forall2 Z.le (bucket_counts r) (bucket_counts r').
Proof.
  intros H H'. split.
  - apply run_collision_experiment_inv in H as (_ & Hloop & _).
    apply run_collision_experiment_inv in H' as (_ & Hloop' & _).
    rewrite experiment_loop_app, Hloop in Hloop'. cbn [bind] in Hloop'.
    destruct (experiment_loop_invariant _ _ _ _ _ _ _ Hloop)
      as (_ & Hpos & _); [apply Forall_nonneg_py_repeat |].
    by destruct (experiment_loop_invariant _ _ _ _ _ _ _ Hloop' Hpos)
      as (_ & _ & _ & Hmono & _).
  - apply run_collision_experiment_histogram in H as (_ & _ & H & _).
    apply run_collision_experiment_histogram in H' as (_ & _ & H' & _).
    rewrite H, H'.
    apply Forall2_fmap, Forall_Forall2_diag, Forall_forall. intros k _.
    rewrite landing_in_app.
    pose proof (landing_in_nonneg hash_func table_size k more). lia.
Qed.


(** ** The polynomial hash as a polynomial *)

Section Polynomial.

Variable table_size : Z.
Variable base : Z.
Hypothesis table_size_nonzero : table_size <> 0.

Local Abbreviation rolling :=
  (fold_left (fun h ch => (h * base + ord ch) mod table_size)).

Lemma rolling_value (s : pystr) (h : Z) :
  rolling s h mod table_size
  = (h * base ^ len s + polynomial_value base s) mod table_size.
Proof.
  revert h. induction s as [| ch s IH]; intros h.
  - simpl. f_equal. unfold len. simpl. lia.
  - cbn [fold_left polynomial_value]. rewrite IH.
    rewrite Z.add_mod, Z.mul_mod, Z.mod_mod by done.
    rewrite <- Z.mul_mod, <- Z.add_mod by done. f_equal.
    replace (len (ch :: s)) with (Z.succ (len s))
      by (unfold len; simpl length; lia).
    rewrite Z.pow_succ_r by (unfold len; lia). ring.
Qed.

Lemma rolling_reduced (s : pystr) (h : Z) :
  h mod table_size = h -> rolling s h mod table_size = rolling s h.
Proof.
  intros Hh.
  apply (polynomial_fold_range table_size base s h
           (fun x => x mod table_size = x)); [done |].
  intros x. by apply Z.mod_mod.
Qed.

Lemma polynomial_hash_value (s : pystr) :
  polynomial_hash (PyStr s) table_size base
  = Ok (polynomial_value base s mod table_size).
Proof.
  unfold polynomial_hash. simpl str.
  rewrite polynomial_loop_spec by done. f_equal.
  rewrite <- rolling_reduced by apply Z.mod_0_l, table_size_nonzero.
  rewrite rolling_value. f_equal; lia.
Qed.

Lemma polynomial_value_app (s1 s2 : pystr) :
  polynomial_value base (s1 ++ s2)
  = polynomial_value base s1 * base ^ len s2 + polynomial_value base s2.
Proof.
  induction s1 as [| ch s1 IH]; simpl; [lia |].
  rewrite IH. replace (len (s1 ++ s2)) with (len s1 + len s2)
    by (unfold len; rewrite length_app; lia).
  rewrite Z.pow_add_r by (unfold len; lia). ring.
Qed.

End Polynomial.

(** For a table size other than 0, the polynomial hash is the value at
    [base] of the polynomial whose coefficients are the code points of
    [str(value)], reduced once modulo the table size: reducing at every
    step changes nothing. *)
Theorem polynomial_hash_closed_form (v : value) (table_size base : Z) :
  table_size <> 0 ->
  polynomial_hash v table_size base
  = Ok (polynomial_value base (str v) mod table_size).
Proof.
  intros Ht. rewrite <- (polynomial_hash_value table_size base Ht (str v)).
  reflexivity.
Qed.

(** The hash rolls: the hash of a text followed by another is computed from
    the hash of the first text alone, and one more character [ch] turns the
    hash [h] into [(h * base + ord(ch)) % table_size]. *)
Theorem polynomial_hash_rolls (s1 s2 : pystr) (ch : N)
  (table_size base h1 : Z) :
  table_size <> 0 ->
  polynomial_hash (PyStr s1) table_size base = Ok h1 ->
  polynomial_hash (PyStr (s1 ++ s2)) table_size base
  = Ok ((h1 * base ^ len s2 + polynomial_value base s2) mod table_size) /\
  polynomial_hash (PyStr (s1 ++ [ch])) table_size base
  = Ok ((h1 * base + ord ch) mod table_size).
Proof.
  intros Ht H1. rewrite polynomial_hash_value in H1 by done.
  inversion H1 as [Hh]. clear H1.
  assert (Happ : forall s, polynomial_hash (PyStr (s1 ++ s)) table_size base
            = Ok ((polynomial_value base s1 mod table_size * base ^ len s
                   + polynomial_value base s) mod table_size)).
  { intros s. rewrite polynomial_hash_value by done. f_equal.
    rewrite polynomial_value_app. symmetry.
    rewrite <- Z.add_mod_idemp_l by done.
    rewrite Z.mul_mod_idemp_l by done.
    by rewrite Z.add_mod_idemp_l. }
  split; [apply Happ |]. rewrite Happ. f_equal. simpl.
  replace (len [ch]) with 1 by reflexivity.
  replace (len []) with 0 by reflexivity.
  f_equal. lia.
Qed.

(** The hash depends on the base only through its remainder modulo the
    table size. *)
Theorem polynomial_hash_congruent_bases (v : value)
  (table_size base base' : Z) :
  table_size <> 0 ->
  base mod table_size = base' mod table_size ->
  polynomial_hash v table_size base = polynomial_hash v table_size base'.
Proof.
  intros Ht Hb. unfold polynomial_hash.
  rewrite !polynomial_loop_spec by done. f_equal.
  generalize 0. induction (str v) as [| ch s IH]; intros h; [done |].
  cbn [fold_left].
  replace ((h * base' + ord ch) mod table_size)
    with ((h * base + ord ch) mod table_size); [apply IH |].
  rewrite Z.add_mod, Z.mul_mod, Hb by done.
  rewrite <- Z.mul_mod, <- Z.add_mod by done. reflexivity.
Qed.

(** When the table size divides the base, as a table of 31 buckets does
    with the default base, only the last character counts. *)
Theorem polynomial_hash_last_character (s : pystr) (ch : N)
  (table_size base : Z) :
  table_size <> 0 ->
  (table_size | base) ->
  polynomial_hash (PyStr (s ++ [ch])) table_size base
  = Ok (ord ch mod table_size).
Proof.
  intros Ht [q ->]. rewrite polynomial_hash_value by done. f_equal.
  rewrite polynomial_value_app. simpl.
  replace (len [ch]) with 1 by reflexivity.
  replace (len []) with 0 by reflexivity.
  replace (polynomial_value (q * table_size) s * (q * table_size) ^ 1
           + (ord ch * (q * table_size) ^ 0 + 0))
    with (ord ch + polynomial_value (q * table_size) s * q * table_size)
    by ring.
  by rewrite Z.mod_add.
Qed.

(** Two integers go to the same bucket of the modulo hash exactly when
    their difference is a multiple of the table size. *)
Theorem modulo_hash_collide_iff_congruent (py_hash : value -> Z)
  (a b table_size : Z) :
  table_size <> 0 ->
  modulo_hash py_hash (PyInt a) table_size
  = modulo_hash py_hash (PyInt b) table_size <->
  (table_size | a - b).
Proof.
  intros Ht. simpl. rewrite !py_mod_nonzero by done. split.
  - intros [= H]. exists (a / table_size - b / table_size).
    pose proof (Z.div_mod a table_size Ht).
    pose proof (Z.div_mod b table_size Ht). lia.
  - intros [q Hq]. f_equal.
    replace a with (b + q * table_size) by lia. by apply Z.mod_add.
Qed.

(** ** The structured sequence in a table of any size *)

Lemma run_collision_experiment_exists (hash_func : value -> Z -> result Z)
  (table_size : Z) (inputs : list value) :
  inputs <> [] ->
  Forall (fun v => is_Some (bucket_of hash_func table_size v)) inputs ->
  exists r, run_collision_experiment hash_func table_size inputs = Ok r.
Proof.
  intros Hne Hall.
  set (bc := map (fun k => landing_in hash_func table_size k inputs)
               (seq 0 (Z.to_nat table_size))).
  exists {| total_collisions := len inputs - occupied bc;
            collision_probability :=
              Qdiv (inject_Z (len inputs - occupied bc))
                (inject_Z (len inputs));
            bucket_counts := bc |}.
  by apply run_collision_experiment_histogram.
Qed.

Lemma landing_in_positive (hash_func : value -> Z -> result Z)
  (table_size : Z) (k : nat) (inputs : list value) :
  0 < landing_in hash_func table_size k inputs <->
  exists v, In v inputs /\ bucket_of hash_func table_size v = Some k.
Proof.
  unfold landing_in, len. split.
  - intros Hpos.
    destruct (filter (fun v => bucket_of hash_func table_size v = Some k)
                inputs) as [| v l] eqn:Hf; [simpl in Hpos; lia |].
    assert (Hin : v ∈ filter
                    (fun v => bucket_of hash_func table_size v = Some k)
                    inputs) by (rewrite Hf; by left).
    apply list_elem_of_filter in Hin as [Hb Hin].
    exists v. split; [by apply list_elem_of_In | done].
  - intros (v & Hin & Hb).
    assert (Hf : v ∈ filter
                   (fun v => bucket_of hash_func table_size v = Some k)
                   inputs).
    { apply list_elem_of_filter. split; [done | by apply list_elem_of_In]. }
    destruct (filter _ inputs); [by apply elem_of_nil in Hf | simpl; lia].
Qed.

Lemma occupied_app (l l' : list Z) :
  occupied (l ++ l') = occupied l + occupied l'.
Proof. induction l as [| x l IH]; simpl; [done | rewrite IH; lia]. Qed.

(** A table whose occupied buckets are exactly the first [m]. *)
Lemma occupied_first (f : nat -> Z) (m size : nat) :
  (m <= size)%nat ->
  (forall k, (k < size)%nat -> 0 < f k <-> (k < m)%nat) ->
  occupied (map f (seq 0 size)) = Z.of_nat m.
Proof.
  revert m. induction size as [| size IH]; intros m Hm Hf.
  - simpl. lia.
  - rewrite seq_S, map_app, occupied_app. simpl.
    destruct (decide (m = S size)) as [-> | Hne].
    + rewrite (IH size) by (try lia; intros k Hk; rewrite Hf by lia; lia).
      destruct (Z.ltb_spec 0 (f size)) as [_ | Hle]; [lia |].
      assert (0 < f size) by (apply Hf; lia). lia.
    + rewrite (IH m) by (try lia; intros k Hk; rewrite Hf by lia; lia).
      destruct (Z.ltb_spec 0 (f size)) as [Hlt | _]; [| lia].
      apply Hf in Hlt; lia.
Qed.

Lemma in_structured_sequence (n : Z) (v : value) :
  In v (generate_structured_sequence n) <->
  exists i, v = PyInt i /\ 0 <= i < n.
Proof.
  unfold generate_structured_sequence, py_range.
  rewrite in_map_iff. split.
  - intros (i & <- & Hin). apply in_map_iff in Hin as (k & <- & Hk).
    apply in_seq in Hk. exists (Z.of_nat k). split; [done | lia].
  - intros (i & -> & Hi). exists i. split; [done |].
    apply in_map_iff. exists (Z.to_nat i). split; [lia |].
    apply in_seq. lia.
Qed.

Lemma bucket_of_modulo_hash (py_hash : value -> Z) (table_size i : Z) :
  0 < table_size ->
  bucket_of (modulo_hash py_hash) table_size (PyInt i)
  = Some (Z.to_nat (i mod table_size)).
Proof.
  intros Ht. unfold bucket_of. simpl. rewrite py_mod_nonzero by lia.
  pose proof (Z.mod_pos_bound i table_size Ht).
  rewrite py_index_nonneg; [done |].
  unfold len. rewrite length_py_repeat. lia.
Qed.

Lemma structured_modulo_run (py_hash : value -> Z)
  (n table_size : Z) :
  1 <= n -> 1 <= table_size ->
  exists r,
    run_collision_experiment (modulo_hash py_hash) table_size
      (generate_structured_sequence n) = Ok r /\
    total_collisions r = Z.max 0 (n - table_size) /\
    occupied (bucket_counts r) = Z.min n table_size.
Proof.
  intros Hn Ht.
  assert (Hlen : len (generate_structured_sequence n) = n).
  { unfold generate_structured_sequence, len. rewrite length_map.
    fold (len (py_range n)). rewrite length_py_range. lia. }
  destruct (run_collision_experiment_exists (modulo_hash py_hash) table_size
              (generate_structured_sequence n)) as [r Hr].
  - intros Hnil. rewrite Hnil in Hlen. unfold len in Hlen. simpl in Hlen. lia.
  - apply Forall_forall. intros v Hin.
    apply list_elem_of_In, in_structured_sequence in Hin as (i & -> & _).
    rewrite bucket_of_modulo_hash by lia. eauto.
  - exists r. split; [done |].
    apply run_collision_experiment_histogram in Hr as (_ & _ & Hbc & Hc & _).
    assert (Hocc : occupied (bucket_counts r) = Z.min n table_size).
    { rewrite Hbc.
      rewrite (occupied_first _ (Z.to_nat (Z.min n table_size))); [lia | lia |].
      intros k Hk. rewrite landing_in_positive. split.
      - intros (v & Hin & Hb).
        apply in_structured_sequence in Hin as (i & -> & Hi).
        rewrite bucket_of_modulo_hash in Hb by lia. inversion Hb; subst.
        pose proof (Z.mod_pos_bound i table_size).
        pose proof (Z.mod_le i table_size). lia.
      - intros Hlt. exists (PyInt (Z.of_nat k)). split.
        + apply in_structured_sequence. exists (Z.of_nat k).
          split; [done | lia].
        + rewrite bucket_of_modulo_hash by lia.
          rewrite Z.mod_small by lia. by rewrite Nat2Z.id. }
    split; [| done]. rewrite Hc, Hocc, Hlen. lia.
Qed.

(** On the structured sequence [0, 1, ..., n-1] in a table of [t >= 1]
    buckets, the modulo hash fills the first [min(n, t)] buckets, and every
    input beyond the table size is a collision:
    [total_collisions == max(0, n - t)]. *)
Theorem structured_modulo_collisions (py_hash : value -> Z)
  (n table_size : Z) :
  1 <= n -> 1 <= table_size ->
  exists r,
    run_collision_experiment (modulo_hash py_hash) table_size
      (generate_structured_sequence n) = Ok r /\
    total_collisions r = Z.max 0 (n - table_size) /\
    occupied (bucket_counts r) = Z.min n table_size.
Proof. apply structured_modulo_run. Qed.

(** ** The input generators *)

Section GeneratorFacts.

Variable rng : Type.
Variable randint : Z -> Z -> rng -> result (Z * rng).
Variable choices : pystr -> Z -> rng -> result (pystr * rng).

Local Abbreviation integers := (generate_random_integers rng randint).
Local Abbreviation strings := (generate_random_strings rng choices).
Local Abbreviation inputs_of := (get_inputs rng randint choices).

Lemma comprehension_add {A : Type} (e : rng -> result (A * rng))
  (k1 k2 : nat) (g : rng) :
  comprehension rng e (k1 + k2) g
  = (let* (xs, g1) := comprehension rng e k1 g in
     let* (ys, g2) := comprehension rng e k2 g1 in
     Ok (xs ++ ys, g2)).
Proof.
  revert g. induction k1 as [| k1 IH]; intros g; simpl.
  - destruct (comprehension rng e k2 g) as [[ys g2] |]; reflexivity.
  - destruct (e g) as [[x g1] |]; simpl; [| reflexivity].
    rewrite IH.
    destruct (comprehension rng e k1 g1) as [[xs g2] |]; simpl;
      [| reflexivity].
    destruct (comprehension rng e k2 g2) as [[ys g3] |]; reflexivity.
Qed.

Lemma comprehension_Forall {A : Type} (e : rng -> result (A * rng))
  (P : A -> Prop) (k : nat) (g : rng) (xs : list A) (g' : rng) :
  (forall g0 x g1, e g0 = Ok (x, g1) -> P x) ->
  comprehension rng e k g = Ok (xs, g') -> Forall P xs.
Proof.
  intros He. revert g xs g'.
  induction k as [| k IH]; intros g xs g' H; simpl in H.
  - inversion H. constructor.
  - apply bind_ok in H as ([x g1] & Hx & H).
    apply bind_ok in H as ([xs' g2] & Hxs & H). inversion H; subst.
    constructor; [by eapply He | by eapply IH].
Qed.

(** A count of 0 or less generates nothing and leaves the random source as
    it is: the library functions are not called, so even an empty range
    [low > high] goes unnoticed. *)
Theorem generate_nothing (n low high length : Z) (g : rng) :
  n <= 0 ->
  generate_random_integers rng randint n low high g = Ok ([], g) /\
  generate_random_strings rng choices n length g = Ok ([], g) /\
  generate_structured_sequence n = [].
Proof.
  intros Hn.
  unfold generate_random_integers, generate_random_strings,
    generate_structured_sequence, py_range.
  replace (Z.to_nat n) with 0%nat by lia. done.
Qed.

(** Drawing [n1 + n2] items is drawing [n1] items and then [n2] more from
    the random source as the first draws left it, exceptions included. *)
Theorem generate_in_two_parts (n1 n2 low high length : Z) (g : rng) :
  0 <= n1 -> 0 <= n2 ->
  generate_random_integers rng randint (n1 + n2) low high g
  = (let* (xs, g1) := generate_random_integers rng randint n1 low high g in
     let* (ys, g2) := generate_random_integers rng randint n2 low high g1 in
     Ok (xs ++ ys, g2)) /\
  generate_random_strings rng choices (n1 + n2) length g
  = (let* (xs, g1) := generate_random_strings rng choices n1 length g in
     let* (ys, g2) := generate_random_strings rng choices n2 length g1 in
     Ok (xs ++ ys, g2)).
Proof.
  intros H1 H2. unfold generate_random_integers, generate_random_strings.
  rewrite Z2Nat.inj_add by done. split; apply comprehension_add.
Qed.

(** When [random.randint] keeps to its range, so do the generated
    integers: with the default keywords they lie in [[0, 1000000]]. *)
Theorem random_integers_in_range (n : Z) (kw : kwargs) (g : rng)
  (inputs : list value) (g' : rng) :
  (forall low high g0 x g1,
     randint low high g0 = Ok (x, g1) -> low <= x <= high) ->
  get_inputs rng randint choices "random_integers" n kw g
  = Ok (inputs, g') ->
  Forall (fun v => exists x, v = PyInt x /\
                     keyword kw "low" 0 <= x <= keyword kw "high" 1000000)
    inputs /\
  len inputs = Z.max 0 n.
Proof.
  intros Hrange H. unfold get_inputs in H.
  apply bind_ok in H as (_ & _ & H). simpl in H.
  apply bind_ok in H as (_ & _ & H). split.
  - eapply comprehension_Forall; [| exact H].
    intros g0 v g1 Hv. apply bind_ok in Hv as ([x g2] & Hx & Hv).
    inversion Hv; subst. exists x. split; [done |]. by eapply Hrange.
  - apply comprehension_length in H. unfold len. lia.
Qed.

(** When [random.choices] returns [k] items of its population, every
    generated string has the requested length and is made of ASCII letters
    and digits. *)
Theorem random_strings_alphanumeric (n : Z) (kw : kwargs) (g : rng)
  (inputs : list value) (g' : rng) :
  (forall population k g0 s g1,
     choices population k g0 = Ok (s, g1) ->
     len s = Z.max 0 k /\ Forall (fun ch => In ch population) s) ->
  get_inputs rng randint choices "random_strings" n kw g
  = Ok (inputs, g') ->
  Forall (fun v => exists s, v = PyStr s /\
                     len s = Z.max 0 (keyword kw "length" 10) /\
                     Forall (fun ch => In ch characters) s)
    inputs /\
  len inputs = Z.max 0 n.
Proof.
  intros Hchoices H. unfold get_inputs in H.
  apply bind_ok in H as (_ & _ & H). simpl in H.
  apply bind_ok in H as (_ & _ & H). split.
  - eapply comprehension_Forall; [| exact H].
    intros g0 v g1 Hv. apply bind_ok in Hv as ([s g2] & Hs & Hv).
    inversion Hv; subst. exists s. split; [done |]. by eapply Hchoices.
  - apply comprehension_length in H. unfold len. lia.
Qed.

Lemma bind_keywords_unexpected (allowed : list string) (kw : kwargs)
  (name : string) :
  is_Some (kw !! name) -> ~ In name allowed ->
  bind_keywords allowed kw = Raise TypeError.
Proof.
  intros Hsome Hnot. unfold bind_keywords.
  destruct (forallb _ _) eqn:Hall; [| done].
  rewrite forallb_forall in Hall.
  assert (Hin : In name (elements (dom kw))).
  { apply list_elem_of_In, elem_of_elements, elem_of_dom. done. }
  apply Hall, bool_decide_eq_true, list_elem_of_In in Hin. done.
Qed.

Lemma bind_positional_cases (taken : list string) (kw : kwargs) :
  bind_positional taken kw = Ok tt \/
  bind_positional taken kw = Raise TypeError.
Proof. unfold bind_positional. destruct (forallb _ _); eauto. Qed.

Lemma bind_positional_taken (kw : kwargs) :
  is_Some (kw !! "distribution") \/ is_Some (kw !! "n") ->
  bind_positional ["distribution"; "n"]%string kw = Raise TypeError.
Proof.
  intros H. unfold bind_positional. simpl.
  destruct H as [[x Hx] | [x Hx]].
  - rewrite (bool_decide_eq_false_2 (kw !! "distribution" = None));
      [done | by rewrite Hx].
  - rewrite (bool_decide_eq_false_2 (kw !! "n" = None)); [| by rewrite Hx].
    by rewrite andb_false_r.
Qed.

(** How [get_inputs] fails.  A keyword named [distribution] or [n] is a
    [TypeError], for it gives a second value to a parameter of
    [get_inputs] itself.  Without such a keyword, a distribution other than
    the three names is a [ValueError] that quotes it, and the structured
    distribution ignores the keywords and the random source.  A keyword
    that the chosen random generator does not have is a [TypeError], raised
    before anything is drawn. *)
Theorem get_inputs_errors (distribution : string) (n : Z) (kw : kwargs)
  (g : rng) (name : string) :
  (is_Some (kw !! "distribution") \/ is_Some (kw !! "n") ->
   get_inputs rng randint choices distribution n kw g = Raise TypeError) /\
  (kw !! "distribution" = None -> kw !! "n" = None ->
   distribution <> "random_integers" ->
   distribution <> "random_strings" ->
   distribution <> "structured" ->
   get_inputs rng randint choices distribution n kw g
   = Raise (ValueError ("Unknown distribution type: " ++ distribution))) /\
  (is_Some (kw !! name) -> name <> "low" -> name <> "high" ->
   get_inputs rng randint choices "random_integers" n kw g
   = Raise TypeError) /\
  (is_Some (kw !! name) -> name <> "length" ->
   get_inputs rng randint choices "random_strings" n kw g
   = Raise TypeError) /\
  (kw !! "distribution" = None -> kw !! "n" = None ->
   get_inputs rng randint choices "structured" n kw g
   = Ok (generate_structured_sequence n, g)).
Proof.
  repeat split.
  - intros Htaken. unfold get_inputs.
    by rewrite bind_positional_taken.
  - intros Hd Hn H1 H2 H3. unfold get_inputs.
    rewrite bind_positional_ok by done.
    apply String.eqb_neq in H1, H2, H3. simpl. by rewrite H1, H2, H3.
  - intros Hsome Hlow Hhigh. unfold get_inputs.
    destruct (bind_positional_cases ["distribution"; "n"]%string kw)
      as [-> | ->]; [| done]. simpl.
    rewrite (bind_keywords_unexpected _ kw name); [done | done |].
    simpl. intros [? | [? | []]]; congruence.
  - intros Hsome Hlength. unfold get_inputs.
    destruct (bind_positional_cases ["distribution"; "n"]%string kw)
      as [-> | ->]; [| done]. simpl.
    rewrite (bind_keywords_unexpected _ kw name); [done | done |].
    simpl. intros [? | []]; congruence.
  - intros Hd Hn. unfold get_inputs.
    by rewrite bind_positional_ok.
Qed.

End GeneratorFacts.

(** ** More on the sweep *)

Section SweepMore.

Variable rng : Type.
Variable randint : Z -> Z -> rng -> result (Z * rng).
Variable choices : pystr -> Z -> rng -> result (pystr * rng).
Variable hash_func : value -> Z -> result Z.
Variable distribution : string.
Variable gen_kwargs : kwargs.

Local Abbreviation results := (gmap (Z * Z) ExperimentResult).
Local Abbreviation chain :=
  (cells_chain rng randint choices hash_func distribution gen_kwargs).
Local Abbreviation sweep :=
  (run_sweep_experiments rng randint choices hash_func distribution
     gen_kwargs).

Lemma cells_chain_sizes (cells : list (cell rng)) (st st' : results * rng) :
  chain st cells st' ->
  Forall (fun c => 1 <= cell_table_size c /\ 1 <= cell_input_size c) cells.
Proof.
  revert st. induction cells as [| c cells IH]; intros st H; simpl in H.
  - constructor.
  - destruct H as (_ & Hin & Hr & H). constructor; [| eapply IH, H].
    apply get_inputs_length in Hin.
    apply run_collision_experiment_histogram in Hr as (Hne & Hall & _).
    destruct (cell_inputs c) as [| v l]; [done |]. split.
    + destruct (Z.le_gt_cases (cell_table_size c) 0) as [Hle |]; [| lia].
      inversion Hall as [| ? ? [k Hk] ?]; subst.
      rewrite bucket_of_no_table in Hk by done. discriminate.
    + unfold len in Hin. simpl in Hin. lia.
Qed.

Lemma cells_chain_last (cells1 cells2 : list (cell rng)) (c : cell rng)
  (st st' : results * rng) :
  chain st (cells1 ++ c :: cells2) st' ->
  Forall (fun c' => cell_key c' <> cell_key c) cells2 ->
  st'.1 !! cell_key c = Some (cell_result c).
Proof.
  intros H Hlater. apply cells_chain_app in H as (mid & _ & H).
  simpl in H. destruct H as (_ & _ & _ & H).
  destruct (cells_chain_lookup _ _ _ _ _ _ _ _ _ (cell_key c) H)
    as [[_ Hsame] | (c' & Hin & Hkey & _)].
  - simpl in Hsame. by rewrite Hsame, lookup_insert_eq.
  - rewrite Forall_forall in Hlater.
    apply list_elem_of_In, Hlater in Hin. done.
Qed.

(** A sweep returns only if every table size and every input size that it
    runs is at least 1: one size of 0 or less in either list makes the
    whole sweep raise, unless the other list is empty. *)
Theorem sweep_needs_positive_sizes (table_sizes input_sizes : list Z)
  (g : rng) (res : results) (g' : rng) (t n : Z) :
  run_sweep_experiments rng randint choices hash_func distribution
    gen_kwargs table_sizes input_sizes g = Ok (res, g') ->
  In t table_sizes -> In n input_sizes -> 1 <= t /\ 1 <= n.
Proof.
  intros H Ht Hn. apply sweep_outer_cells in H as (cells & Hk & H).
  apply cells_chain_sizes in H. rewrite Forall_forall in H.
  assert (Hin : In (t, n) (map cell_key cells))
    by (rewrite Hk; by apply in_prod).
  apply in_map_iff in Hin as (c & Hc & Hin).
  apply list_elem_of_In, H in Hin. unfold cell_key in Hc.
  inversion Hc; subst. done.
Qed.


(** When a pair is run more than once, because a size is repeated in its
    list, the collection keeps the result of the last cell run under that
    key. *)
Theorem sweep_last_cell_wins (table_sizes input_sizes : list Z) (g : rng)
  (res : results) (g' : rng) :
  run_sweep_experiments rng randint choices hash_func distribution
    gen_kwargs table_sizes input_sizes g = Ok (res, g') ->
  exists cells : list (cell rng),
    map cell_key cells = list_prod table_sizes input_sizes /\
    cells_chain rng randint choices hash_func distribution gen_kwargs
      (∅, g) cells (res, g') /\
    forall earlier c later,
      cells = earlier ++ c :: later ->
      Forall (fun c' => cell_key c' <> cell_key c) later ->
      res !! cell_key c = Some (cell_result c).
Proof.
  intros H. apply sweep_outer_cells in H as (cells & Hk & H).
  exists cells. split; [done |]. split; [done |].
  intros earlier c later -> Hlater.
  by apply (cells_chain_last _ _ _ _ _ H Hlater).
Qed.

End SweepMore.

Section StructuredSweep.

Variable rng : Type.
Variable randint : Z -> Z -> rng -> result (Z * rng).
Variable choices : pystr -> Z -> rng -> result (pystr * rng).
Variable hash_func : value -> Z -> result Z.
Variable gen_kwargs : kwargs.
Hypothesis no_distribution_keyword : gen_kwargs !! "distribution" = None.
Hypothesis no_n_keyword : gen_kwargs !! "n" = None.

Local Abbreviation results := (gmap (Z * Z) ExperimentResult).
Local Abbreviation structured_run t n :=
  (run_collision_experiment hash_func t (generate_structured_sequence n)).

Lemma sweep_inner_structured (t : Z) (input_sizes : list Z) (res : results)
  (g : rng) :
  (forall n, In n input_sizes -> exists r, structured_run t n = Ok r) ->
  exists res',
    sweep_inner rng randint choices hash_func "structured" gen_kwargs t
      input_sizes (res, g) = Ok (res', g) /\
    (forall n, In n input_sizes ->
       exists r, res' !! (t, n) = Some r /\ structured_run t n = Ok r) /\
    (forall k, (forall n, In n input_sizes -> k <> (t, n)) ->
       res' !! k = res !! k).
Proof.
  revert res. induction input_sizes as [| n ns IH]; intros res Hrun.
  - exists res. split; [done |]. split; [by intros ? [] | done].
  - destruct (Hrun n) as [r Hr]; [by left |].
    destruct (IH (<[(t, n) := r]> res)) as (res' & Hsweep & Hkeys & Hother).
    { intros n' Hn'. apply Hrun. by right. }
    exists res'. split; [| split].
    + cbn [sweep_inner]. unfold sweep_cell, get_inputs.
      rewrite bind_positional_ok by done. simpl.
      rewrite Hr. simpl. exact Hsweep.
    + intros n' [<- | Hn']; [| by apply Hkeys].
      destruct (in_dec Z.eq_dec n ns) as [Hin | Hnot]; [by apply Hkeys |].
      exists r. split; [| done]. rewrite Hother, lookup_insert_eq; [done |].
      intros n' Hn' [= ->]. done.
    + intros k Hk. rewrite Hother.
      * apply lookup_insert_ne. intros <-. by apply (Hk n); [left |].
      * intros n' Hn'. apply Hk. by right.
Qed.

Lemma sweep_outer_structured (table_sizes input_sizes : list Z)
  (res : results) (g : rng) :
  (forall t n, In t table_sizes -> In n input_sizes ->
     exists r, structured_run t n = Ok r) ->
  exists res',
    sweep_outer rng randint choices hash_func "structured" gen_kwargs
      table_sizes input_sizes (res, g) = Ok (res', g) /\
    (forall t n, In t table_sizes -> In n input_sizes ->
       exists r, res' !! (t, n) = Some r /\ structured_run t n = Ok r) /\
    (forall k, (forall t n, In t table_sizes -> In n input_sizes ->
                  k <> (t, n)) ->
       res' !! k = res !! k).
Proof.
  revert res. induction table_sizes as [| t ts IH]; intros res Hrun.
  - exists res. split; [done |]. split; [by intros ? ? [] | done].
  - destruct (sweep_inner_structured t input_sizes res g)
      as (res1 & Hinner & Hkeys1 & Hother1).
    { intros n Hn. apply Hrun; [by left | done]. }
    destruct (IH res1) as (res' & Houter & Hkeys & Hother).
    { intros t' n Ht' Hn. apply Hrun; [by right | done]. }
    exists res'. split; [| split].
    + cbn [sweep_outer]. rewrite Hinner. exact Houter.
    + intros t' n [<- | Ht'] Hn; [| by apply Hkeys].
      destruct (in_dec Z.eq_dec t ts) as [Hin | Hnot]; [by apply Hkeys |].
      destruct (Hkeys1 n Hn) as (r & Hr & Hrun').
      exists r. split; [| done]. rewrite Hother; [done |].
      intros t' n' Ht' Hn' [= -> ->]. done.
    + intros k Hk. rewrite Hother.
      * apply Hother1. intros n Hn. apply Hk; [by left | done].
      * intros t' n Ht' Hn. apply Hk; [by right | done].
Qed.

End StructuredSweep.



(** ** The plotted series *)

Section SortedRows.

Context {B : Type}.
Implicit Types (x : Z * B) (rows : list (Z * B)).

Lemma insert_row_perm x rows : Permutation (insert_row x rows) (x :: rows).
Proof.
  induction rows as [| y rows IH]; simpl; [done |].
  destruct (y.1 <? x.1); [| done].
  rewrite IH. apply perm_swap.
Qed.

Lemma sorted_rows_perm rows : Permutation (sorted_rows rows) rows.
Proof.
  induction rows as [| x rows IH]; simpl; [done |].
  by rewrite insert_row_perm, IH.
Qed.

Lemma insert_row_sorted x rows :
  StronglySorted (fun a b : Z * B => a.1 <= b.1) rows ->
  StronglySorted (fun a b : Z * B => a.1 <= b.1) (insert_row x rows).
Proof.
  induction rows as [| y rows IH]; intros Hs; simpl.
  - repeat constructor.
  - inversion Hs as [| ? ? Hs' Hall]; subst.
    destruct (Z.ltb_spec y.1 x.1) as [Hlt | Hge].
    + constructor; [by apply IH |].
      rewrite insert_row_perm. constructor; [lia | done].
    + constructor; [done |]. constructor; [done |].
      eapply Forall_impl; [exact Hall |]. simpl. intros. lia.
Qed.

Lemma sorted_rows_sorted rows :
  StronglySorted (fun a b : Z * B => a.1 <= b.1) (sorted_rows rows).
Proof.
  induction rows as [| x rows IH]; simpl; [constructor |].
  by apply insert_row_sorted.
Qed.

Lemma sorted_distinct_keys rows :
  StronglySorted (fun a b : Z * B => a.1 <= b.1) rows ->
  NoDup (map fst rows) ->
  StronglySorted Z.lt (map fst rows).
Proof.
  induction rows as [| x rows IH]; intros Hs Hnd; simpl; [constructor |].
  inversion Hs as [| ? ? Hs' Hall]; subst.
  simpl in Hnd. apply NoDup_cons in Hnd as [Hnotin Hnd].
  constructor; [by apply IH |].
  apply Forall_forall. intros k Hk.
  apply list_elem_of_fmap in Hk as (y & -> & Hy).
  rewrite Forall_forall in Hall. specialize (Hall y Hy).
  assert (x.1 <> y.1); [| lia].
  intros Heq. apply Hnotin. rewrite Heq.
  apply list_elem_of_fmap. eauto.
Qed.

(** Sorting rows with distinct keys: the keys come out strictly ascending
    and the rows are the same ones. *)
Lemma sorted_rows_series rows :
  NoDup (map fst rows) ->
  StronglySorted Z.lt (map fst (sorted_rows rows)) /\
  Permutation (sorted_rows rows) rows.
Proof.
  intros Hnd. split; [| apply sorted_rows_perm].
  apply sorted_distinct_keys; [apply sorted_rows_sorted |].
  by rewrite sorted_rows_perm.
Qed.

Lemma sorted_rows_nil rows : sorted_rows rows = [] <-> rows = [].
Proof.
  split; [| by intros ->]. intros H.
  pose proof (sorted_rows_perm rows) as Hp. rewrite H in Hp.
  by apply Permutation_nil in Hp.
Qed.

End SortedRows.

Lemma in_collisions_rows (d : sweep_dict) (n t c : Z) (p : Q) :
  In (t, (c, p)) (collisions_rows d n) <->
  exists r, In ((t, n), r) d /\
            c = total_collisions r /\ p = collision_probability r.
Proof.
  unfold collisions_rows. rewrite in_flat_map. split.
  - intros ([[t' n'] r] & Hin & H).
    destruct (Z.eqb_spec n' n) as [-> | Hne]; [| done].
    destruct H as [[= <- <- <-] | []]. eauto.
  - intros (r & Hin & -> & ->). exists ((t, n), r). split; [done |].
    rewrite Z.eqb_refl. by left.
Qed.

Lemma in_probability_rows (d : sweep_dict) (t n : Z) (p : Q) :
  In (n, p) (probability_rows d t) <->
  exists r, In ((t, n), r) d /\ p = collision_probability r.
Proof.
  unfold probability_rows. rewrite in_flat_map. split.
  - intros ([[t' n'] r] & Hin & H).
    destruct (Z.eqb_spec t' t) as [-> | Hne]; [| done].
    destruct H as [[= <- <-] | []]. eauto.
  - intros (r & Hin & ->). exists ((t, n), r). split; [done |].
    rewrite Z.eqb_refl. by left.
Qed.

Lemma NoDup_collisions_rows (d : sweep_dict) (n : Z) :
  NoDup (map fst d) -> NoDup (map fst (collisions_rows d n)).
Proof.
  induction d as [| [[t' n'] r] d IH]; intros Hnd; simpl; [constructor |].
  simpl in Hnd. apply NoDup_cons in Hnd as [Hnotin Hnd].
  destruct (Z.eqb_spec n' n) as [-> | Hne]; simpl; [| by apply IH].
  apply NoDup_cons. split; [| by apply IH].
  intros Hin. apply Hnotin.
  apply list_elem_of_fmap in Hin as ([t [c p]] & Ht & Hin). simpl in Ht.
  subst t. apply list_elem_of_In, in_collisions_rows in Hin as (r' & Hin & _).
  apply list_elem_of_fmap. exists ((t', n), r').
  split; [done | by apply list_elem_of_In].
Qed.

Lemma NoDup_probability_rows (d : sweep_dict) (t : Z) :
  NoDup (map fst d) -> NoDup (map fst (probability_rows d t)).
Proof.
  induction d as [| [[t' n'] r] d IH]; intros Hnd; simpl; [constructor |].
  simpl in Hnd. apply NoDup_cons in Hnd as [Hnotin Hnd].
  destruct (Z.eqb_spec t' t) as [-> | Hne]; simpl; [| by apply IH].
  apply NoDup_cons. split; [| by apply IH].
  intros Hin. apply Hnotin.
  apply list_elem_of_fmap in Hin as ([n p] & Hn & Hin). simpl in Hn.
  subst n. apply list_elem_of_In, in_probability_rows in Hin as (r' & Hin & _).
  apply list_elem_of_fmap. exists ((t, n'), r').
  split; [done | by apply list_elem_of_In].
Qed.

Lemma plot_collisions_ok (d : sweep_dict) (n : Z) (ts cs : list Z)
  (ps : list Q) :
  plot_collisions_vs_table_size d n = Ok (ts, cs, ps) ->
  ts = map fst (sorted_rows (collisions_rows d n)) /\
  cs = map (fun x => x.2.1) (sorted_rows (collisions_rows d n)) /\
  ps = map (fun x => x.2.2) (sorted_rows (collisions_rows d n)).
Proof.
  unfold plot_collisions_vs_table_size.
  destruct (sorted_rows (collisions_rows d n)); [discriminate |].
  by intros [= <- <- <-].
Qed.

Lemma plot_probability_ok (d : sweep_dict) (t : Z) (ns : list Z)
  (ps : list Q) :
  plot_collision_probability_vs_input_size d t = Ok (ns, ps) ->
  ns = map fst (sorted_rows (probability_rows d t)) /\
  ps = map snd (sorted_rows (probability_rows d t)).
Proof.
  unfold plot_collision_probability_vs_input_size.
  destruct (sorted_rows (probability_rows d t)); [discriminate |].
  by intros [= <- <-].
Qed.

(** The first plot shows one point per cell of the given input size, by
    ascending table size, each table size with the collisions and the
    probability of its own cell. *)
Theorem plot_collisions_series (sweep_results : sweep_dict) (input_size : Z)
  (table_sizes collisions : list Z) (collision_probs : list Q) :
  NoDup (map fst sweep_results) ->
  plot_collisions_vs_table_size sweep_results input_size
  = Ok (table_sizes, collisions, collision_probs) ->
  StronglySorted Z.lt table_sizes /\
  (forall t, In t table_sizes <->
             exists r, In ((t, input_size), r) sweep_results) /\
  (forall i t, table_sizes !! i = Some t ->
     exists r, In ((t, input_size), r) sweep_results /\
               collisions !! i = Some (total_collisions r) /\
               collision_probs !! i = Some (collision_probability r)).
Proof.
  intros Hnd H. apply plot_collisions_ok in H as (-> & -> & ->).
  destruct (sorted_rows_series (collisions_rows sweep_results input_size))
    as [Hsorted Hperm]; [by apply NoDup_collisions_rows |].
  split; [exact Hsorted |]. split.
  - intros t. rewrite in_map_iff. split.
    + intros ([t' [c p]] & <- & Hin).
      apply list_elem_of_In in Hin. rewrite Hperm in Hin.
      apply list_elem_of_In, in_collisions_rows in Hin as (r & Hin & _).
      eauto.
    + intros (r & Hin).
      exists (t, (total_collisions r, collision_probability r)).
      split; [done |]. apply list_elem_of_In. rewrite Hperm.
      apply list_elem_of_In, in_collisions_rows. eauto.
  - intros i t Hi. apply list_lookup_fmap_Some_1 in Hi
      as ([t' [c p]] & Ht & Hrow). simpl in Ht. subst t'.
    assert (Hin : (t, (c, p)) ∈ sorted_rows
                    (collisions_rows sweep_results input_size))
      by (by eapply list_elem_of_lookup_2).
    rewrite Hperm in Hin.
    apply list_elem_of_In, in_collisions_rows in Hin as (r & Hin & -> & ->).
    exists r. rewrite !list_lookup_fmap, Hrow. done.
Qed.

(** The first plot fails, with the [ValueError] of the unpacking, exactly
    when the results have no cell of the given input size. *)
Theorem plot_collisions_no_cell (sweep_results : sweep_dict)
  (input_size : Z) :
  plot_collisions_vs_table_size sweep_results input_size
  = Raise (unpack_error "3") <->
  (forall t r, ~ In ((t, input_size), r) sweep_results).
Proof.
  unfold plot_collisions_vs_table_size.
  destruct (sorted_rows (collisions_rows sweep_results input_size))
    as [| row rows] eqn:Hrows.
  - apply (proj1 (sorted_rows_nil _)) in Hrows.
    split; [| done]. intros _ t r Hin.
    assert (Hrow : In (t, (total_collisions r, collision_probability r))
                     (collisions_rows sweep_results input_size))
      by (apply in_collisions_rows; eauto).
    by rewrite Hrows in Hrow.
  - split; [discriminate |]. intros Hnone. exfalso.
    destruct row as [t [c p]].
    assert (Hin : (t, (c, p)) ∈ sorted_rows
                    (collisions_rows sweep_results input_size))
      by (rewrite Hrows; by left).
    rewrite sorted_rows_perm in Hin.
    apply list_elem_of_In, in_collisions_rows in Hin as (r & Hin & _).
    by eapply Hnone.
Qed.

(** The second plot shows one point per cell of the given table size, by
    ascending input size, each with the probability of its own cell; it
    fails, with the [ValueError] of the unpacking, exactly when the results
    have no cell of that table size. *)
Theorem plot_probability_series (sweep_results : sweep_dict)
  (table_size : Z) :
  NoDup (map fst sweep_results) ->
  (forall input_sizes collision_probs,
     plot_collision_probability_vs_input_size sweep_results table_size
     = Ok (input_sizes, collision_probs) ->
     StronglySorted Z.lt input_sizes /\
     (forall n, In n input_sizes <->
                exists r, In ((table_size, n), r) sweep_results) /\
     (forall i n, input_sizes !! i = Some n ->
        exists r, In ((table_size, n), r) sweep_results /\
                  collision_probs !! i = Some (collision_probability r))) /\
  (plot_collision_probability_vs_input_size sweep_results table_size
   = Raise (unpack_error "2") <->
   (forall n r, ~ In ((table_size, n), r) sweep_results)).
Proof.
  intros Hnd.
  destruct (sorted_rows_series (probability_rows sweep_results table_size))
    as [Hsorted Hperm]; [by apply NoDup_probability_rows |].
  split.
  - intros input_sizes collision_probs H.
    apply plot_probability_ok in H as (-> & ->).
    split; [exact Hsorted |]. split.
    + intros n. rewrite in_map_iff. split.
      * intros ([n' p] & <- & Hin).
        apply list_elem_of_In in Hin. rewrite Hperm in Hin.
        apply list_elem_of_In, in_probability_rows in Hin as (r & Hin & _).
        eauto.
      * intros (r & Hin). exists (n, collision_probability r).
        split; [done |]. apply list_elem_of_In. rewrite Hperm.
        apply list_elem_of_In, in_probability_rows. eauto.
    + intros i n Hi. apply list_lookup_fmap_Some_1 in Hi
        as ([n' p] & Hn & Hrow). simpl in Hn. subst n'.
      assert (Hin : (n, p) ∈ sorted_rows
                      (probability_rows sweep_results table_size))
        by (by eapply list_elem_of_lookup_2).
      rewrite Hperm in Hin.
      apply list_elem_of_In, in_probability_rows in Hin as (r & Hin & ->).
      exists r. rewrite list_lookup_fmap, Hrow. done.
  - unfold plot_collision_probability_vs_input_size.
    destruct (sorted_rows (probability_rows sweep_results table_size))
      as [| row rows] eqn:Hrows.
    + apply Permutation_nil in Hperm. split; [| done]. intros _ n r Hin.
      assert (Hrow : In (n, collision_probability r)
                       (probability_rows sweep_results table_size))
        by (apply in_probability_rows; eauto).
      by rewrite Hperm in Hrow.
    + split; [discriminate |]. intros Hnone. exfalso.
      destruct row as [n p].
      assert (Hin : (n, p) ∈ (n, p) :: rows) by (by left).
      rewrite Hperm in Hin.
      apply list_elem_of_In, in_probability_rows in Hin as (r & Hin & _).
      by eapply Hnone.
Qed.


(** ** From the sweep to the plots *)

Lemma plot_collisions_returns (d : sweep_dict) (n : Z) :
  (exists t r, In ((t, n), r) d) ->
  exists ts cs ps,
    plot_collisions_vs_table_size d n = Ok (ts, cs, ps) /\
    forall t, In t ts <-> exists r, In ((t, n), r) d.
Proof.
  intros (t0 & r0 & Hin0). unfold plot_collisions_vs_table_size.
  pose proof (sorted_rows_perm (collisions_rows d n)) as Hperm.
  destruct (sorted_rows (collisions_rows d n)) as [| row rows] eqn:Hrows.
  - apply Permutation_nil in Hperm.
    assert (Hrow : In (t0, (total_collisions r0, collision_probability r0))
                     (collisions_rows d n))
      by (apply in_collisions_rows; eauto).
    by rewrite Hperm in Hrow.
  - eexists _, _, _. split; [reflexivity |].
    intros t. rewrite in_map_iff. split.
    + intros ([t' [c p]] & <- & Hin).
      apply list_elem_of_In in Hin. rewrite Hperm in Hin.
      apply list_elem_of_In, in_collisions_rows in Hin as (r & Hin & _).
      eauto.
    + intros (r & Hin).
      exists (t, (total_collisions r, collision_probability r)).
      split; [done |]. apply list_elem_of_In. rewrite Hperm.
      apply list_elem_of_In, in_collisions_rows. eauto.
Qed.

Lemma plot_probability_returns (d : sweep_dict) (t : Z) :
  (exists n r, In ((t, n), r) d) ->
  exists ns ps,
    plot_collision_probability_vs_input_size d t = Ok (ns, ps) /\
    forall n, In n ns <-> exists r, In ((t, n), r) d.
Proof.
  intros (n0 & r0 & Hin0). unfold plot_collision_probability_vs_input_size.
  pose proof (sorted_rows_perm (probability_rows d t)) as Hperm.
  destruct (sorted_rows (probability_rows d t)) as [| row rows] eqn:Hrows.
  - apply Permutation_nil in Hperm.
    assert (Hrow : In (n0, collision_probability r0) (probability_rows d t))
      by (apply in_probability_rows; eauto).
    by rewrite Hperm in Hrow.
  - eexists _, _. split; [reflexivity |].
    intros n. rewrite in_map_iff. split.
    + intros ([n' p] & <- & Hin).
      apply list_elem_of_In in Hin. rewrite Hperm in Hin.
      apply list_elem_of_In, in_probability_rows in Hin as (r & Hin & _).
      eauto.
    + intros (r & Hin). exists (n, collision_probability r).
      split; [done |]. apply list_elem_of_In. rewrite Hperm.
      apply list_elem_of_In, in_probability_rows. eauto.
Qed.

Section SweepPlots.

Variable rng : Type.
Variable randint : Z -> Z -> rng -> result (Z * rng).
Variable choices : pystr -> Z -> rng -> result (pystr * rng).
Variable hash_func : value -> Z -> result Z.
Variable distribution : string.
Variable gen_kwargs : kwargs.

(** The keys of a returned collection are the pairs of the cross
    product. *)
Lemma sweep_keys (table_sizes input_sizes : list Z) (g : rng)
  (res : gmap (Z * Z) ExperimentResult) (g' : rng) (k : Z * Z) :
  run_sweep_experiments rng randint choices hash_func distribution gen_kwargs
    table_sizes input_sizes g = Ok (res, g') ->
  is_Some (res !! k) <-> In k (list_prod table_sizes input_sizes).
Proof.
  intros H. apply sweep_outer_cells in H as (cells & Hk & H).
  destruct (cells_chain_lookup _ _ _ _ _ _ _ _ _ k H)
    as [[Hnot Hsame] | (c & Hin & Hkey & Hc)]; simpl in *.
  - rewrite Hsame, lookup_empty, <- Hk.
    split; [by intros [? ?] | intros Hin; contradiction].
  - rewrite Hc, <- Hk, <- Hkey. split; [| intros _; by eexists].
    intros _. by apply in_map.
Qed.

(** After a sweep that returned, neither of the two plots that [main]
    draws from its results can fail: for any input size of the sweep the
    first plot shows exactly the table sizes of the sweep, and for any
    table size of the sweep the second shows exactly its input sizes. *)
Theorem plots_of_a_sweep (table_sizes input_sizes : list Z) (g : rng)
  (res : gmap (Z * Z) ExperimentResult) (g' : rng)
  (sweep_results : sweep_dict) (t n : Z) :
  run_sweep_experiments rng randint choices hash_func distribution gen_kwargs
    table_sizes input_sizes g = Ok (res, g') ->
  lists_results sweep_results res ->
  In t table_sizes -> In n input_sizes ->
  (exists ts cs ps,
     plot_collisions_vs_table_size sweep_results n = Ok (ts, cs, ps) /\
     forall t', In t' ts <-> In t' table_sizes) /\
  (exists ns ps,
     plot_collision_probability_vs_input_size sweep_results t = Ok (ns, ps) /\
     forall n', In n' ns <-> In n' input_sizes).
Proof.
  intros H [_ Hd] Ht Hn.
  assert (Hcell : forall t' n',
             (exists r, In ((t', n'), r) sweep_results) <->
             In t' table_sizes /\ In n' input_sizes).
  { intros t' n'. rewrite <- in_prod_iff, <- (sweep_keys _ _ _ _ _ _ H).
    split; intros [r Hr]; exists r; by apply Hd. }
  split.
  - destruct (plot_collisions_returns sweep_results n)
      as (ts & cs & ps & Hplot & Hts).
    { exists t. by apply Hcell. }
    exists ts, cs, ps. split; [done |]. intros t'.
    rewrite Hts, Hcell. tauto.
  - destruct (plot_probability_returns sweep_results t)
      as (ns & ps & Hplot & Hns).
    { exists n. by apply Hcell. }
    exists ns, ps. split; [done |]. intros n'.
    rewrite Hns, Hcell. tauto.
Qed.

(** The keywords that [main] builds always fit the generator of the
    chosen distribution: the string length reaches the string generator,
    the integers are drawn from the default range, and no [TypeError] can
    come from the keywords. *)
Theorem main_keywords_fit (n string_length : Z) (g : rng) :
  get_inputs rng randint choices "random_integers" n
    (main_gen_kwargs "random_integers" string_length) g
  = generate_random_integers rng randint n 0 1000000 g /\
  get_inputs rng randint choices "random_strings" n
    (main_gen_kwargs "random_strings" string_length) g
  = generate_random_strings rng choices n string_length g /\
  get_inputs rng randint choices "structured" n
    (main_gen_kwargs "structured" string_length) g
  = Ok (generate_structured_sequence n, g).
Proof. by repeat split. Qed.

End SweepPlots.

(** ** The further properties on concrete inputs *)

Lemma bucket_counts_histogram_witness :
  run_collision_experiment (modulo_hash sample_hash) 4 sample_inputs
  = Ok sample_result /\
  bucket_counts sample_result
  = map (fun k => landing_in (modulo_hash sample_hash) 4 k sample_inputs)
      (seq 0 (Z.to_nat 4)).
Proof.
  split; [reflexivity |].
  apply (bucket_counts_histogram (modulo_hash sample_hash) 4 sample_inputs
           sample_result).
  reflexivity.
Defined.

Lemma run_collision_experiment_permutation_witness :
  Permutation sample_inputs [PyInt 6; PyInt 9; PyInt 1] /\
  run_collision_experiment (modulo_hash sample_hash) 4 sample_inputs
  = Ok sample_result /\
  run_collision_experiment (modulo_hash sample_hash) 4
    [PyInt 6; PyInt 9; PyInt 1] = Ok sample_result.
Proof.
  split; [apply perm_swap |]. split; [reflexivity |].
  apply (run_collision_experiment_permutation (modulo_hash sample_hash) 4
           sample_inputs [PyInt 6; PyInt 9; PyInt 1] sample_result);
    [apply perm_swap | reflexivity].
Defined.

Lemma collisions_pigeonhole_witness :
  run_collision_experiment (modulo_hash sample_hash) 2 sample_inputs
  = Ok {| total_collisions := 1; collision_probability := 1 # 3;
          bucket_counts := [1; 2] |} /\
  len sample_inputs - 2
  <= total_collisions
       {| total_collisions := 1; collision_probability := 1 # 3;
          bucket_counts := [1; 2] |}.
Proof.
  split; [reflexivity |].
  apply (collisions_pigeonhole (modulo_hash sample_hash) 2 sample_inputs).
  reflexivity.
Defined.

Lemma no_collision_iff_distinct_buckets_witness :
  run_collision_experiment (modulo_hash sample_hash) 4 sample_inputs
  = Ok sample_result /\
  (total_collisions sample_result = 0 <->
   NoDup (map (bucket_of (modulo_hash sample_hash) 4) sample_inputs)).
Proof.
  split; [reflexivity |].
  apply (no_collision_iff_distinct_buckets (modulo_hash sample_hash) 4
           sample_inputs sample_result).
  reflexivity.
Defined.

Lemma index_out_of_range_raises_witness :
  Forall (fun x => is_Some (bucket_of identity_hash 4 x)) [PyInt 1] /\
  identity_hash (PyInt 7) 4 = Ok 7 /\
  (7 < - 4 \/ 4 <= 7) /\
  run_collision_experiment identity_hash 4 ([PyInt 1] ++ PyInt 7 :: [PyInt 2])
  = Raise IndexError.
Proof.
  assert (H1 : Forall (fun x => is_Some (bucket_of identity_hash 4 x))
                 [PyInt 1])
    by (repeat constructor; by eexists).
  split; [exact H1 |]. split; [reflexivity |]. split; [lia |].
  apply (index_out_of_range_raises identity_hash 4 [PyInt 1] [PyInt 2]
           (PyInt 7) 7); [exact H1 | reflexivity | lia].
Defined.

Lemma no_result_without_buckets_witness :
  -3 <= 0 /\
  (forall r, run_collision_experiment identity_hash (-3) [PyInt 5] <> Ok r) /\
  ([PyInt 5] <> [] ->
   let e := if -3 =? 0 then ZeroDivisionError else IndexError in
   run_collision_experiment (modulo_hash sample_hash) (-3) [PyInt 5]
   = Raise e /\
   run_collision_experiment (built_in_hash sample_hash) (-3) [PyInt 5]
   = Raise e).
Proof.
  split; [lia |].
  apply (no_result_without_buckets sample_hash identity_hash (-3) [PyInt 5]).
  lia.
Defined.

Lemma more_inputs_more_collisions_witness :
  run_collision_experiment (modulo_hash sample_hash) 4 sample_inputs
  = Ok sample_result /\
  run_collision_experiment (modulo_hash sample_hash) 4
    (sample_inputs ++ [PyInt 2])
  = Ok {| total_collisions := 2; collision_probability := 2 # 4;
          bucket_counts := [0; 2; 2; 0] |} /\
  total_collisions sample_result
  <= total_collisions
       {| total_collisions := 2; collision_probability := 2 # 4;
          bucket_counts := [0; 2; 2; 0] |} /\
  Forall2 Z.le (bucket_counts sample_result)
    (bucket_counts
       {| total_collisions := 2; collision_probability := 2 # 4;
          bucket_counts := [0; 2; 2; 0] |}).
Proof.
  split; [reflexivity |]. split; [reflexivity |].
  apply (more_inputs_more_collisions (modulo_hash sample_hash) 4
           sample_inputs [PyInt 2] sample_result); reflexivity.
Defined.

Lemma polynomial_hash_closed_form_witness :
  100 <> 0 /\
  polynomial_hash (PyInt 42) 100 default_base
  = Ok (polynomial_value default_base (str (PyInt 42)) mod 100).
Proof.
  split; [lia |].
  apply (polynomial_hash_closed_form (PyInt 42) 100 default_base). lia.
Defined.

Lemma polynomial_hash_rolls_witness :
  100 <> 0 /\
  polynomial_hash (PyStr (pystr_of_string "ab")) 100 default_base = Ok 5 /\
  polynomial_hash (PyStr (pystr_of_string "ab" ++ pystr_of_string "cd"))
    100 default_base
  = Ok ((5 * default_base ^ len (pystr_of_string "cd")
         + polynomial_value default_base (pystr_of_string "cd")) mod 100) /\
  polynomial_hash (PyStr (pystr_of_string "ab" ++ [99%N])) 100 default_base
  = Ok ((5 * default_base + ord 99) mod 100).
Proof.
  split; [lia |]. split; [reflexivity |].
  apply (polynomial_hash_rolls (pystr_of_string "ab") (pystr_of_string "cd")
           99%N 100 default_base 5); [lia | reflexivity].
Defined.

Lemma polynomial_hash_congruent_bases_witness :
  10 <> 0 /\ 31 mod 10 = 1 mod 10 /\
  polynomial_hash (PyInt 42) 10 31 = polynomial_hash (PyInt 42) 10 1.
Proof.
  split; [lia |]. split; [reflexivity |].
  apply (polynomial_hash_congruent_bases (PyInt 42) 10 31 1);
    [lia | reflexivity].
Defined.

Lemma polynomial_hash_last_character_witness :
  31 <> 0 /\ (31 | default_base) /\
  polynomial_hash (PyStr (pystr_of_string "ab" ++ [99%N])) 31 default_base
  = Ok (ord 99 mod 31).
Proof.
  assert (Hd : (31 | default_base)) by (exists 1; reflexivity).
  split; [lia |]. split; [exact Hd |].
  apply (polynomial_hash_last_character (pystr_of_string "ab") 99%N 31
           default_base); [lia | exact Hd].
Defined.

Lemma modulo_hash_collide_iff_congruent_witness :
  5 <> 0 /\
  (modulo_hash sample_hash (PyInt 12) 5 = modulo_hash sample_hash (PyInt 2) 5
   <-> (5 | 12 - 2)).
Proof.
  split; [lia |].
  apply (modulo_hash_collide_iff_congruent sample_hash 12 2 5). lia.
Defined.

Lemma structured_modulo_collisions_witness :
  1 <= 7 /\ 1 <= 3 /\
  exists r,
    run_collision_experiment (modulo_hash sample_hash) 3
      (generate_structured_sequence 7) = Ok r /\
    total_collisions r = Z.max 0 (7 - 3) /\
    occupied (bucket_counts r) = Z.min 7 3.
Proof.
  split; [lia |]. split; [lia |].
  apply (structured_modulo_collisions sample_hash 7 3); lia.
Defined.

Lemma counter_randint_range (low high : Z) (g : nat) (x : Z) (g' : nat) :
  counter_randint low high g = Ok (x, g') -> low <= x <= high.
Proof.
  unfold counter_randint. destruct (Z.ltb_spec high low); [discriminate |].
  intros [= <- <-].
  pose proof (Z.mod_pos_bound (Z.of_nat g) (high - low + 1)). lia.
Qed.

Lemma cycle_choices_contract (population : pystr) (k : Z) (g : nat)
  (s : pystr) (g' : nat) :
  cycle_choices population k g = Ok (s, g') ->
  len s = Z.max 0 k /\ Forall (fun ch => In ch population) s.
Proof.
  unfold cycle_choices, len. destruct population as [| ch rest] eqn:Hpop.
  - destruct (Z.ltb_spec 0 k); [discriminate |]. intros [= <- <-].
    split; [simpl; lia | constructor].
  - rewrite <- Hpop.
    assert (Hne : length population <> 0%nat) by (by rewrite Hpop).
    clear Hpop. intros [= <- <-]. split.
    + rewrite length_map, length_seq. lia.
    + apply Forall_forall. intros c Hc.
      apply list_elem_of_fmap in Hc as (i & -> & _).
      by apply nth_In, Nat.mod_upper_bound.
Qed.

Lemma generate_nothing_witness :
  -2 <= 0 /\
  generate_random_integers nat counter_randint (-2) 5 3 0%nat
  = Ok ([], 0%nat) /\
  generate_random_strings nat counter_choices (-2) 10 0%nat = Ok ([], 0%nat) /\
  generate_structured_sequence (-2) = [].
Proof.
  split; [lia |].
  apply (generate_nothing nat counter_randint counter_choices (-2) 5 3 10
           0%nat).
  lia.
Defined.

Lemma generate_in_two_parts_witness :
  0 <= 1 /\ 0 <= 2 /\
  generate_random_integers nat counter_randint (1 + 2) 0 9 0%nat
  = (let* (xs, g1) := generate_random_integers nat counter_randint 1 0 9
                        0%nat in
     let* (ys, g2) := generate_random_integers nat counter_randint 2 0 9 g1 in
     Ok (xs ++ ys, g2)) /\
  generate_random_strings nat counter_choices (1 + 2) 3 0%nat
  = (let* (xs, g1) := generate_random_strings nat counter_choices 1 3
                        0%nat in
     let* (ys, g2) := generate_random_strings nat counter_choices 2 3 g1 in
     Ok (xs ++ ys, g2)).
Proof.
  split; [lia |]. split; [lia |].
  apply (generate_in_two_parts nat counter_randint counter_choices 1 2 0 9 3
           0%nat); lia.
Defined.

Lemma random_integers_in_range_witness :
  (forall low high g0 x g1,
     counter_randint low high g0 = Ok (x, g1) -> low <= x <= high) /\
  get_inputs nat counter_randint counter_choices "random_integers" 3 ∅ 0%nat
  = Ok ([PyInt 0; PyInt 1; PyInt 2], 3%nat) /\
  Forall (fun v => exists x, v = PyInt x /\
                     keyword ∅ "low" 0 <= x <= keyword ∅ "high" 1000000)
    [PyInt 0; PyInt 1; PyInt 2] /\
  len [PyInt 0; PyInt 1; PyInt 2] = Z.max 0 3.
Proof.
  split; [exact counter_randint_range |]. split; [reflexivity |].
  apply (random_integers_in_range nat counter_randint counter_choices 3 ∅
           0%nat [PyInt 0; PyInt 1; PyInt 2] 3%nat);
    [exact counter_randint_range | reflexivity].
Defined.

Lemma random_strings_alphanumeric_witness :
  (forall population k g0 s g1,
     cycle_choices population k g0 = Ok (s, g1) ->
     len s = Z.max 0 k /\ Forall (fun ch => In ch population) s) /\
  get_inputs nat counter_randint cycle_choices "random_strings" 2
    (<["length" := 3]> ∅) 0%nat
  = Ok ([PyStr (pystr_of_string "abc"); PyStr (pystr_of_string "bcd")],
        2%nat) /\
  Forall (fun v => exists s, v = PyStr s /\
                     len s = Z.max 0 (keyword (<["length" := 3]> ∅)
                                        "length" 10) /\
                     Forall (fun ch => In ch characters) s)
    [PyStr (pystr_of_string "abc"); PyStr (pystr_of_string "bcd")] /\
  len [PyStr (pystr_of_string "abc"); PyStr (pystr_of_string "bcd")]
  = Z.max 0 2.
Proof.
  split; [exact cycle_choices_contract |]. split; [reflexivity |].
  apply (random_strings_alphanumeric nat counter_randint cycle_choices 2
           (<["length" := 3]> ∅) 0%nat
           [PyStr (pystr_of_string "abc"); PyStr (pystr_of_string "bcd")]
           2%nat);
    [exact cycle_choices_contract | reflexivity].
Defined.

Lemma sweep_needs_positive_sizes_witness :
  run_sweep_experiments nat counter_randint counter_choices
    (modulo_hash sample_hash) "random_integers" ∅ [5; 7] [2] 0%nat
  = Ok (sample_sweep_results, 4%nat) /\
  In 7 [5; 7] /\ In 2 [2] /\ 1 <= 7 /\ 1 <= 2.
Proof.
  split; [reflexivity |]. split; [right; by left |]. split; [by left |].
  apply (sweep_needs_positive_sizes nat counter_randint counter_choices
           (modulo_hash sample_hash) "random_integers" ∅ [5; 7] [2] 0%nat
           sample_sweep_results 4%nat 7 2);
    [reflexivity | right; by left | by left].
Defined.


Lemma sweep_last_cell_wins_witness :
  run_sweep_experiments nat counter_randint counter_choices
    (modulo_hash sample_hash) "random_integers" ∅ [5; 5] [2] 0%nat
  = Ok (sample_repeated_results, 4%nat) /\
  exists cells : list (cell nat),
    map cell_key cells = list_prod [5; 5] [2] /\
    cells_chain nat counter_randint counter_choices (modulo_hash sample_hash)
      "random_integers" ∅ (∅, 0%nat) cells
      (sample_repeated_results, 4%nat) /\
    forall earlier c later,
      cells = earlier ++ c :: later ->
      Forall (fun c' => cell_key c' <> cell_key c) later ->
      sample_repeated_results !! cell_key c = Some (cell_result c).
Proof.
  split; [reflexivity |].
  apply (sweep_last_cell_wins nat counter_randint counter_choices
           (modulo_hash sample_hash) "random_integers" ∅ [5; 5] [2] 0%nat
           sample_repeated_results 4%nat).
  reflexivity.
Defined.


Lemma NoDup_sample_dict : NoDup (map fst sample_dict).
Proof. apply (bool_decide_unpack _). reflexivity. Qed.

Lemma sample_sweep_dict_lists :
  lists_results sample_sweep_dict sample_sweep_results.
Proof.
  split; [apply (bool_decide_unpack _); reflexivity |].
  intros k r. unfold sample_sweep_dict, sample_sweep_results. split.
  - intros [[= <- <-] | [[= <- <-] | []]]; reflexivity.
  - intros H. apply lookup_insert_Some in H as [[<- <-] | [_ H]];
      [right; by left |].
    apply lookup_insert_Some in H as [[<- <-] | [_ H]]; [by left |].
    by rewrite lookup_empty in H.
Qed.

Lemma plot_collisions_series_witness :
  NoDup (map fst sample_dict) /\
  plot_collisions_vs_table_size sample_dict 2
  = Ok ([5; 7], [1; 0], [1 # 2; 0 # 2]) /\
  StronglySorted Z.lt [5; 7] /\
  (forall t, In t [5; 7] <-> exists r, In ((t, 2), r) sample_dict) /\
  (forall i t, [5; 7] !! i = Some t ->
     exists r, In ((t, 2), r) sample_dict /\
               [1; 0] !! i = Some (total_collisions r) /\
               [1 # 2; 0 # 2] !! i = Some (collision_probability r)).
Proof.
  split; [exact NoDup_sample_dict |]. split; [reflexivity |].
  apply (plot_collisions_series sample_dict 2 [5; 7] [1; 0] [1 # 2; 0 # 2]);
    [exact NoDup_sample_dict | reflexivity].
Defined.

Lemma plot_probability_series_witness :
  NoDup (map fst sample_dict) /\
  plot_collision_probability_vs_input_size sample_dict 5
  = Ok ([2; 4], [1 # 2; 3 # 4]) /\
  (forall input_sizes collision_probs,
     plot_collision_probability_vs_input_size sample_dict 5
     = Ok (input_sizes, collision_probs) ->
     StronglySorted Z.lt input_sizes /\
     (forall n, In n input_sizes <->
                exists r, In ((5, n), r) sample_dict) /\
     (forall i n, input_sizes !! i = Some n ->
        exists r, In ((5, n), r) sample_dict /\
                  collision_probs !! i = Some (collision_probability r))) /\
  (plot_collision_probability_vs_input_size sample_dict 5
   = Raise (unpack_error "2") <->
   (forall n r, ~ In ((5, n), r) sample_dict)).
Proof.
  split; [exact NoDup_sample_dict |]. split; [reflexivity |].
  apply (plot_probability_series sample_dict 5). exact NoDup_sample_dict.
Defined.

Example plot_without_cell :
  plot_collisions_vs_table_size sample_dict 3
  = Raise (ValueError "not enough values to unpack (expected 3, got 0)").
Proof. reflexivity. Qed.

Lemma plots_of_a_sweep_witness :
  run_sweep_experiments nat counter_randint counter_choices
    (modulo_hash sample_hash) "random_integers" ∅ [5; 7] [2] 0%nat
  = Ok (sample_sweep_results, 4%nat) /\
  lists_results sample_sweep_dict sample_sweep_results /\
  In 5 [5; 7] /\ In 2 [2] /\
  (exists ts cs ps,
     plot_collisions_vs_table_size sample_sweep_dict 2 = Ok (ts, cs, ps) /\
     forall t', In t' ts <-> In t' [5; 7]) /\
  (exists ns ps,
     plot_collision_probability_vs_input_size sample_sweep_dict 5
     = Ok (ns, ps) /\
     forall n', In n' ns <-> In n' [2]).
Proof.
  split; [reflexivity |]. split; [exact sample_sweep_dict_lists |].
  split; [by left |]. split; [by left |].
  apply (plots_of_a_sweep nat counter_randint counter_choices
           (modulo_hash sample_hash) "random_integers" ∅ [5; 7] [2] 0%nat
           sample_sweep_results 4%nat sample_sweep_dict 5 2);
    [reflexivity | exact sample_sweep_dict_lists | by left | by left].
Defined.
